(** * cenozavr: the scraping pipeline of [src/cenozavr/scrapper.py]

    A shallow embedding of the module in a state-and-exception monad.
    The browser (Selenium / undetected_chromedriver) and the clock are an
    external environment: every call into it is recorded in a trace and
    answered by an oracle which may return a value or raise any Python
    exception.  Python text is a sequence of Unicode code points, [None]
    is [option]'s [None], and the log of the module logger is a list of
    records. *)

From Stdlib Require Import String Ascii NArith Arith Bool Lia List.
Import ListNotations.

Set Implicit Arguments.

(* ================================================================== *)
(** ** Python text *)

Module PyStr.

(** A Python [str] is a sequence of code points. *)
Definition pystr := list N.

(** Decoding of the UTF-8 bytes of a source literal. *)
Fixpoint utf8_decode (bs : list N) : pystr :=
  match bs with
  | [] => []
  | b0 :: r0 =>
      if (b0 <? 128)%N then b0 :: utf8_decode r0
      else if (b0 <? 224)%N then
        match r0 with
        | b1 :: r1 => ((b0 - 192) * 64 + (b1 - 128))%N :: utf8_decode r1
        | _ => [65533%N]
        end
      else if (b0 <? 240)%N then
        match r0 with
        | b1 :: b2 :: r2 =>
            ((b0 - 224) * 4096 + (b1 - 128) * 64 + (b2 - 128))%N
              :: utf8_decode r2
        | _ => [65533%N]
        end
      else
        match r0 with
        | b1 :: b2 :: b3 :: r3 =>
            ((b0 - 240) * 262144 + (b1 - 128) * 4096
             + (b2 - 128) * 64 + (b3 - 128))%N :: utf8_decode r3
        | _ => [65533%N]
        end
  end.

(** [py lit] is the Python string written as the literal [lit]. *)
Definition py (s : string) : pystr :=
  utf8_decode (map N_of_ascii (list_ascii_of_string s)).

(** The double quote, which a literal here cannot contain. *)
Definition dquote : N := 34%N.

Definition pystr_eqb (a b : pystr) : bool :=
  if list_eq_dec N.eq_dec a b then true else false.

(** [str.isspace] on one code point: the Unicode whitespace that
    [str.strip()] removes. *)
Definition isspace (c : N) : bool :=
  ((9 <=? c) && (c <=? 13) || (28 <=? c) && (c <=? 32)
   || (c =? 133) || (c =? 160) || (c =? 5760)
   || (8192 <=? c) && (c <=? 8202)
   || (c =? 8232) || (c =? 8233) || (c =? 8239) || (c =? 8287)
   || (c =? 12288))%N.

Fixpoint lstrip (s : pystr) : pystr :=
  match s with
  | [] => []
  | c :: r => if isspace c then lstrip r else s
  end.

Definition rstrip (s : pystr) : pystr := rev (lstrip (rev s)).

(** [s.strip()] *)
Definition strip (s : pystr) : pystr := rstrip (lstrip s).

(** [s[:-n]] for [n > 0]: everything but the last [n] code points, and
    the empty string when there are no more than [n]. *)
Definition drop_last (n : nat) (s : pystr) : pystr :=
  firstn (length s - n) s.

End PyStr.
Export PyStr.

(* ================================================================== *)
(** ** Exceptions *)

(** The exception classes the module names or can meet, with the base
    class of each; [Subclass name base] is any other class. *)
Inductive exc_class : Type :=
| BaseException
| Exception
| KeyboardInterrupt
| SystemExit
| GeneratorExit
| TypeError
| AttributeError
| LookupError
| IndexError
| WebDriverException
| NoSuchElementException
| TimeoutException
| StaleElementReferenceException
| SessionNotCreatedException
| InvalidElementStateException
| ElementNotInteractableException
| Subclass (name : string) (base : exc_class).

Definition exc_class_eq_dec (a b : exc_class) : {a = b} + {a <> b}.
Proof. decide equality. apply string_dec. Defined.

(** Method resolution order: the class followed by its ancestors. *)
Fixpoint mro (c : exc_class) : list exc_class :=
  c :: match c with
       | BaseException => []
       | Exception | KeyboardInterrupt | SystemExit | GeneratorExit =>
           [BaseException]
       | TypeError | AttributeError | LookupError | WebDriverException =>
           [Exception; BaseException]
       | IndexError => [LookupError; Exception; BaseException]
       | NoSuchElementException | TimeoutException
       | StaleElementReferenceException | SessionNotCreatedException
       | InvalidElementStateException =>
           [WebDriverException; Exception; BaseException]
       | ElementNotInteractableException =>
           [InvalidElementStateException; WebDriverException; Exception;
            BaseException]
       | Subclass _ b => mro b
       end.

Definition issubclass (c d : exc_class) : bool :=
  existsb (fun a => if exc_class_eq_dec a d then true else false) (mro c).

(** A raised exception: its class and [str(e)]. *)
Record exn : Type := mkExn { exn_class : exc_class; exn_str : pystr }.

Definition isinstance (e : exn) (c : exc_class) : bool :=
  issubclass (exn_class e) c.

(* ================================================================== *)
(** ** The logger *)

Inductive level : Type := DEBUG | INFO | WARNING | ERROR.

Definition levelno (l : level) : nat :=
  match l with DEBUG => 10 | INFO => 20 | WARNING => 30 | ERROR => 40 end.

Record log_record : Type :=
  mkLog { lr_level : level; lr_msg : pystr; lr_exc_info : bool }.

(** [logger.setLevel(logging.INFO)] *)
Definition logger_level : level := INFO.

(* ================================================================== *)
(** ** The environment: browser and clock *)

(** Handles of a browser session ([uc.Chrome]) and of a page element. *)
Definition WebDriver := nat.
Definition WebElement := nat.

Inductive by_ : Type :=
| By_XPATH | By_CLASS_NAME | By_CSS_SELECTOR | By_ID | By_TAG_NAME.

(** The expected conditions handed to [WebDriverWait.until]. *)
Inductive condition : Type :=
| presence_of_element_located (b : by_) (loc : pystr)
| element_to_be_clickable (b : by_) (loc : pystr).

Record chrome_options : Type :=
  mkOptions { opt_arguments : list pystr;
              opt_experimental : list (pystr * (pystr * nat)) }.

(** One field of a row: a string, or [None]. *)
Definition field := option pystr.
Definition row := list field.

Inductive call : Type :=
| Chrome (headless : bool) (options : chrome_options)
| DriverGet (d : WebDriver) (url : pystr)
| DriverFindElements (d : WebDriver) (b : by_) (loc : pystr)
| DriverImplicitlyWait (d : WebDriver) (secs : nat)
| DriverExecuteScript (d : WebDriver) (script : pystr) (arg : WebElement)
| DriverClose (d : WebDriver)
| DriverQuit (d : WebDriver)
| WaitUntil (d : WebDriver) (timeout : nat) (c : condition)
| WaitUntilAll (d : WebDriver) (timeout : nat) (b : by_) (loc : pystr)
| ActionsMoveClick (d : WebDriver) (e : WebElement)
| ActionsMove (d : WebDriver) (e : WebElement)
| ElemClick (e : WebElement)
| ElemSendKeys (e : WebElement) (keys : pystr)
| ElemFindElement (e : WebElement) (b : by_) (loc : pystr)
| ElemFindElements (e : WebElement) (b : by_) (loc : pystr)
| ElemText (e : WebElement)
| ElemGetAttribute (e : WebElement) (name : pystr)
| TimeSleep (secs : nat).

(** What a call yields when it returns. *)
Definition ret_type (c : call) : Type :=
  match c with
  | Chrome _ _ => WebDriver
  | DriverFindElements _ _ _ | WaitUntilAll _ _ _ _
  | ElemFindElements _ _ _ => list WebElement
  | WaitUntil _ _ _ | ElemFindElement _ _ _ => WebElement
  | DriverExecuteScript _ _ _ | ElemGetAttribute _ _ => option pystr
  | ElemText _ => pystr
  | _ => unit
  end.

Inductive outcome (A : Type) : Type :=
| Return (a : A)
| Raise (e : exn).
Arguments Raise {A} e.

(** The environment answers each call from its own state [W]. *)
Class Environment (W : Type) : Type :=
  respond : forall c : call, W -> outcome (ret_type c) * W.

(** The state of a run: the environment, the trace of the calls made, the
    emitted log records, and the rows of [products.csv] ([None] while the
    file does not exist).  The local file system is taken to be reliable:
    opening and writing the file always succeed. *)
Record state (W : Type) : Type :=
  mkState { world : W;
            calls : list call;
            log : list log_record;
            products_csv : option (list row) }.

(* ================================================================== *)
(** ** The category pattern and [re.search] *)

Module Re.

(** The pieces a pattern of this module is made of: a literal code
    point, and a capturing group [([^c]+)]. *)
Inductive item : Type :=
| Lit (c : N)
| GroupPlusNot (c : N).

Definition regex := list item.

(** One or more code points other than [c], then the rest of the
    pattern [k].  [acc] is what the group has consumed so far.  The
    group is greedy: a longer run is tried before a shorter one. *)
Fixpoint plus_not (c : N) (k : pystr -> option (list pystr))
         (s acc : pystr) : option (list pystr) :=
  match s with
  | x :: s' =>
      if (x =? c)%N then None
      else match plus_not c k s' (acc ++ [x]) with
           | Some gs => Some gs
           | None =>
               match k s' with
               | Some gs => Some ((acc ++ [x]) :: gs)
               | None => None
               end
           end
  | [] => None
  end.

(** Matching at the start of [s], by backtracking; the result lists
    what the groups captured. *)
Fixpoint match_here (p : regex) (s : pystr) : option (list pystr) :=
  match p with
  | [] => Some []
  | Lit c :: p' =>
      match s with
      | x :: s' => if (x =? c)%N then match_here p' s' else None
      | [] => None
      end
  | GroupPlusNot c :: p' => plus_not c (match_here p') s []
  end.

(** [re.search]: the match at the leftmost position that has one. *)
Fixpoint search (p : regex) (s : pystr) : option (list pystr) :=
  match match_here p s with
  | Some gs => Some gs
  | None => match s with
            | [] => None
            | _ :: s' => search p s'
            end
  end.

(** [m.group(1)] *)
Definition group1 (m : list pystr) : pystr := hd [] m.

End Re.

(** [category_pattern]: the text [category: ], a double quote, a capturing
    group of one or more code points other than the double quote, and a
    double quote. *)
Definition category_prefix : pystr := py "category: " ++ [dquote].

Definition category_pattern : Re.regex :=
  map Re.Lit category_prefix ++ [Re.GroupPlusNot dquote; Re.Lit dquote].

(* ================================================================== *)
(** ** Module constants *)

Definition URL_MAIN : pystr := py "https://www.okeydostavka.ru".
Definition ADDRESS : pystr := py "Москва, Малая Бронная улица, 32".
Definition CATEGORIES : list pystr :=
  [py "Товары со скидками"; py "Бытовая химия"].

(** [Keys.ENTER] *)
Definition Keys_ENTER : pystr := [57351%N].

(** The header row [save_to_csv] writes. *)
Definition csv_header : row :=
  [Some (py "Наименование"); Some (py "Url_товара");
   Some (py "Url_изображения"); Some (py "Категория");
   Some (py "Полная цена"); Some (py "Цена соскидкой")].

(** The value of a function that returns nothing. *)
Definition NoneType := option Empty_set.

(* ================================================================== *)
(** ** The monad of the module's code *)

Section Embedding.

Context {W : Type} {env : Environment W}.

(** The proxy extension directory and the chosen user agent, computed
    at import time from the process environment and [agents.py]. *)
Variable PATH : pystr.
Variable USER_AGENT : pystr.

Definition M (A : Type) : Type := state W -> outcome A * state W.

Definition ret {A} (a : A) : M A := fun st => (Return a, st).

Definition raise {A} (e : exn) : M A := fun st => (Raise e, st).

Definition bind {A B} (m : M A) (k : A -> M B) : M B :=
  fun st =>
    match m st with
    | (Return a, st') => k a st'
    | (Raise e, st') => (Raise e, st')
    end.

Notation "x <- m ;; k" := (bind m (fun x => k))
  (at level 100, m at next level, right associativity).
Notation "' p <- m ;; k" := (bind m (fun p => k))
  (at level 100, p pattern, m at next level, right associativity).
Notation "m ;; k" := (bind m (fun _ => k))
  (at level 100, right associativity).

(** A call into the environment: recorded, then answered. *)
Definition invoke (c : call) : M (ret_type c) :=
  fun st =>
    let (r, w) := respond c (world st) in
    (r, mkState w (calls st ++ [c]) (log st) (products_csv st)).

(** [logger.<level>(msg)]: emitted when the level is enabled. *)
Definition logger_log (l : level) (msg : pystr) (exc_info : bool)
  : M unit :=
  fun st =>
    if levelno logger_level <=? levelno l
    then (Return tt,
          mkState (world st) (calls st)
                  (log st ++ [mkLog l msg exc_info]) (products_csv st))
    else (Return tt, st).

Definition logger_debug (msg : string) : M unit :=
  logger_log DEBUG (py msg) false.
Definition logger_info (msg : string) : M unit :=
  logger_log INFO (py msg) false.
Definition logger_warning (msg : string) : M unit :=
  logger_log WARNING (py msg) false.
(** [logger.error(f'<prefix>{e}', exc_info=True)] *)
Definition logger_error (prefix : string) (e : exn) : M unit :=
  logger_log ERROR (py prefix ++ exn_str e) true.

(** [try: body / except c as e: handler e] *)
Definition try_except {A} (body : M A) (c : exc_class)
           (handler : exn -> M A) : M A :=
  fun st =>
    match body st with
    | (Raise e, st') =>
        if isinstance e c then handler e st' else (Raise e, st')
    | r => r
    end.

(** [try: body / finally: return v]: whatever [body] did, the value is
    [v] and an exception in flight is dropped. *)
Definition finally_return {A B} (body : M A) (v : B) : M B :=
  fun st => (Return v, snd (body st)).

(** [for x in xs: body], threading the locals the body rebinds. *)
Fixpoint for_ {A S} (xs : list A) (body : A -> S -> M S) (s : S)
  : M S :=
  match xs with
  | [] => ret s
  | x :: r => s' <- body x s ;; for_ r body s'
  end.

(** Attribute access on a value that may be [None]. *)
Definition deref {A} (o : option A) (attr : string) : M A :=
  match o with
  | Some a => ret a
  | None =>
      raise (mkExn AttributeError
               (py "'NoneType' object has no attribute '" ++ py attr
                   ++ py "'"))
  end.

(** [l[i]] *)
Definition index {A} (l : list A) (i : nat) : M A :=
  match nth_error l i with
  | Some a => ret a
  | None => raise (mkExn IndexError (py "list index out of range"))
  end.

(** [a + b] on a [str] and a value that may be [None]. *)
Definition str_add (a : pystr) (b : option pystr) : M pystr :=
  match b with
  | Some s => ret (a ++ s)
  | None =>
      raise (mkExn TypeError
               (py "can only concatenate str (not 'NoneType') to str"))
  end.

(** [WebDriverWait(driver, timeout)] and its [until]. *)
Definition WebDriverWait (driver : option WebDriver) (timeout : nat)
  : option WebDriver * nat := (driver, timeout).

Definition until (wait : option WebDriver * nat) (c : condition)
  : M WebElement :=
  d <- deref (fst wait) "find_element" ;;
  invoke (WaitUntil d (snd wait) c).

(** [wait.until(EC.presence_of_all_elements_located((by, loc)))] *)
Definition until_all (wait : option WebDriver * nat) (b : by_)
           (loc : pystr) : M (list WebElement) :=
  d <- deref (fst wait) "find_elements" ;;
  invoke (WaitUntilAll d (snd wait) b loc).

Definition time_sleep (secs : nat) : M unit := invoke (TimeSleep secs).

(** *** [handle_exceptions] *)

Definition handle_exceptions {A} (func : M (option A)) : M (option A) :=
  fun st =>
    match func st with
    | (Return a, st') => (Return a, st')
    | (Raise e, st') =>
        if isinstance e NoSuchElementException then
          (logger_error "Element not found: " e ;; ret None) st'
        else if isinstance e TimeoutException then
          (logger_error "Timeout occurred: " e ;; ret None) st'
        else if isinstance e StaleElementReferenceException then
          (logger_error "Stale element reference: " e ;; ret None) st'
        else if isinstance e SessionNotCreatedException then
          (logger_error "Session not created: " e ;; ret None) st'
        else if isinstance e InvalidElementStateException then
          (logger_error "Invalid element state: " e ;; ret None) st'
        else if isinstance e WebDriverException then
          (logger_error "Webdriver exception: " e ;; ret None) st'
        else if isinstance e TypeError then
          (logger_error "Webdriver exception: " e ;; ret None) st'
        else if isinstance e AttributeError then
          (logger_error "Webdriver exception: " e ;; ret None) st'
        else if isinstance e Exception then
          (logger_error "An unexpected error occurred: " e ;; raise e) st'
        else (Raise e, st')
    end.

(** *** [go_next_page] *)

Definition go_next_page (driver : option WebDriver) : M (option WebDriver) :=
  d <- deref driver "find_elements" ;;
  next <- invoke (DriverFindElements d By_CLASS_NAME (py "right_arrow")) ;;
  finally_return
    (try_except
       (n0 <- index next 0 ;;
        invoke (ElemClick n0) ;;
        logger_debug "press next page")
       ElementNotInteractableException
       (fun _ => logger_debug "next page dosnt exist"))
    driver.

(** *** [find_element] *)

Definition find_element_body (driver : option WebDriver) (method : pystr)
           (loc : pystr) : M (option WebElement) :=
  let wait := WebDriverWait driver 10 in
  if pystr_eqb method (py "xpath") then
    e <- until wait (presence_of_element_located By_XPATH loc) ;;
    ret (Some e)
  else if pystr_eqb method (py "class_name") then
    e <- until wait (presence_of_element_located By_CLASS_NAME loc) ;;
    ret (Some e)
  else if pystr_eqb method (py "css_selector") then
    e <- until wait (presence_of_element_located By_CSS_SELECTOR loc) ;;
    ret (Some e)
  else if pystr_eqb method (py "id") then
    e <- until wait (presence_of_element_located By_ID loc) ;;
    ret (Some e)
  else if pystr_eqb method (py "tag_name") then
    e <- until wait (presence_of_element_located By_TAG_NAME loc) ;;
    ret (Some e)
  else if pystr_eqb method (py "delivery") then
    e <- until wait (element_to_be_clickable By_ID loc) ;;
    ret (Some e)
  else raise (mkExn AttributeError (py "invalid name for parametr")).

Definition find_element (driver : option WebDriver) (method loc : pystr)
  : M (option WebElement) :=
  handle_exceptions (find_element_body driver method loc).

(** *** [create_webdriver] *)

Definition add_argument (o : chrome_options) (a : pystr)
  : chrome_options :=
  mkOptions (opt_arguments o ++ [a]) (opt_experimental o).

Definition add_experimental_option (o : chrome_options) (name : pystr)
           (v : pystr * nat) : chrome_options :=
  mkOptions (opt_arguments o) (opt_experimental o ++ [(name, v)]).

Definition create_webdriver_body (user_agent : pystr)
           (headless proxy : bool) : M (option WebDriver) :=
  let options := mkOptions [] [] in
  let options := add_argument options (py "--ignore-certificate-errors") in
  let options := add_argument options (py "--disable-notifications") in
  let options :=
    add_experimental_option options (py "prefs")
      (py "profile.default_content_setting_values.geolocation", 2) in
  let options := add_argument options (py "--user-agent=" ++ user_agent) in
  let options :=
    if proxy then add_argument options (py "--load-extension=" ++ PATH)
    else options in
  driver <- invoke (Chrome headless options) ;;
  ret (Some driver).

Definition create_webdriver (user_agent : pystr) (headless proxy : bool)
  : M (option WebDriver) :=
  handle_exceptions (create_webdriver_body user_agent headless proxy).

(** *** [click_element] *)

(** [actions.move_to_element(element)]: what is not a [WebElement] is
    refused before the driver is used. *)
Definition move_to_element (element : option WebElement) : M WebElement :=
  match element with
  | Some e => ret e
  | None => raise (mkExn AttributeError (py "move_to requires a WebElement"))
  end.

Definition click_element_body (driver : option WebDriver)
           (element : option WebElement) : M NoneType :=
  e <- move_to_element element ;;
  d <- deref driver "execute" ;;
  invoke (ActionsMoveClick d e) ;;
  ret None.

Definition click_element (driver : option WebDriver)
           (element : option WebElement) : M NoneType :=
  handle_exceptions (click_element_body driver element).

(** *** [close_driver] *)

Definition close_driver_body (driver : option WebDriver) : M NoneType :=
  d <- deref driver "close" ;;
  invoke (DriverClose d) ;;
  invoke (DriverQuit d) ;;
  ret None.

Definition close_driver (driver : option WebDriver) : M NoneType :=
  handle_exceptions (close_driver_body driver).

(** *** [select_delivery_address] *)

(** [ActionChains(driver).move_to_element(e).perform()] *)
Definition hover (driver : option WebDriver) (e : WebElement) : M unit :=
  d <- deref driver "execute" ;;
  invoke (ActionsMove d e).

Definition implicitly_wait (driver : option WebDriver) (secs : nat)
  : M unit :=
  d <- deref driver "implicitly_wait" ;;
  invoke (DriverImplicitlyWait d secs).

Definition driver_get (driver : option WebDriver) (url : pystr)
  : M unit :=
  d <- deref driver "get" ;;
  invoke (DriverGet d url).

Definition send_keys (e : option WebElement) (keys : pystr) : M unit :=
  a <- deref e "send_keys" ;;
  invoke (ElemSendKeys a keys).

Definition select_delivery_address_body (driver : option WebDriver)
           (delivery_address : pystr) : M (option WebDriver) :=
  let wait := WebDriverWait driver 15 in
  driver_get driver URL_MAIN ;;
  accept <- find_element driver (py "xpath")
              (py "//button[contains(text(),'Принять')]") ;;
  click_element driver accept ;;
  logger_debug "press ok cookie" ;;
  delivery <- until wait
                (element_to_be_clickable By_ID
                   (py "availableReceiptTimeslot")) ;;
  hover driver delivery ;;
  time_sleep 10 ;;
  invoke (ElemClick delivery) ;;
  logger_debug "press delivery button" ;;
  address <- find_element driver (py "css_selector")
               (py "#addressSelectionQuery") ;;
  implicitly_wait driver 15 ;;
  send_keys address delivery_address ;;
  logger_debug "insert address in form" ;;
  implicitly_wait driver 15 ;;
  send_keys address Keys_ENTER ;;
  send_keys address Keys_ENTER ;;
  logger_debug "press enter" ;;
  save <- until wait
            (element_to_be_clickable By_ID (py "addressSelectionButton")) ;;
  hover driver save ;;
  invoke (ElemClick save) ;;
  logger_debug "press save delivery address" ;;
  time_sleep 10 ;;
  ret driver.

Definition select_delivery_address (driver : option WebDriver)
           (delivery_address : pystr) : M (option WebDriver) :=
  handle_exceptions (select_delivery_address_body driver delivery_address).

(** *** [parse_products] *)

(** The [try] / [except AttributeError] around the category label. *)
Definition category_step (lst : row) (js_code : option pystr) : M row :=
  try_except
    (category_match <-
       match js_code with
       | Some s => ret (Re.search category_pattern s)
       | None =>
           raise (mkExn TypeError
                    (py "expected string or bytes-like object"))
       end ;;
     m <- deref category_match "group" ;;
     ret (lst ++ [Some (Re.group1 m)]))
    AttributeError
    (fun _ =>
       let lst := lst ++ [Some (py "no category")] in
       logger_warning "category not found" ;;
       ret lst).

(** [full_price.strip()[:-2]] *)
Definition normalise_price (text : pystr) : pystr :=
  drop_last 2 (strip text).

(** The body of [for prod in cards]. *)
Definition parse_card (driver : option WebDriver) (prod : WebElement)
           (products_main : list row) : M (list row) :=
  let lst : row := [] in
  a <- invoke (ElemFindElement prod By_TAG_NAME (py "a")) ;;
  a_text <- invoke (ElemText a) ;;
  let lst := lst ++ [Some a_text] in
  href <- invoke (ElemGetAttribute a (py "href")) ;;
  let lst := lst ++ [href] in
  img_url <- invoke (ElemFindElement prod By_TAG_NAME (py "img")) ;;
  data_src <- invoke (ElemGetAttribute img_url (py "data-src")) ;;
  img <- str_add URL_MAIN data_src ;;
  let lst := lst ++ [Some img] in
  el <- invoke (ElemFindElement prod By_TAG_NAME (py "script")) ;;
  d <- deref driver "execute_script" ;;
  js_code <- invoke (DriverExecuteScript d
                       (py "return arguments[0].innerHTML;") el) ;;
  lst <- category_step lst js_code ;;
  div_price <- invoke (ElemFindElement prod By_CLASS_NAME
                         (py "product-price")) ;;
  prices <- invoke (ElemFindElements div_price By_TAG_NAME (py "span")) ;;
  prices0 <- index prices 0 ;;
  full_price <- invoke (ElemGetAttribute prices0 (py "textContent")) ;;
  prices1 <- index prices 1 ;;
  price <- invoke (ElemGetAttribute prices1 (py "textContent")) ;;
  full_price <- deref full_price "strip" ;;
  let lst := lst ++ [Some (normalise_price full_price)] in
  price <- deref price "strip" ;;
  let lst := lst ++ [Some (normalise_price price)] in
  let products_main := products_main ++ [lst] in
  logger_info "products added to main list" ;;
  ret products_main.

(** The body of [for _ in range(pages)]. *)
Definition parse_page (loc : option WebDriver * list row)
  : M (option WebDriver * list row) :=
  let '(driver, products_main) := loc in
  let wait := WebDriverWait driver 10 in
  cards <- until_all wait By_CLASS_NAME (py "product.ok-theme") ;;
  logger_debug "find products cards" ;;
  products_main <- for_ cards (parse_card driver) products_main ;;
  driver <- go_next_page driver ;;
  time_sleep 5 ;;
  ret (driver, products_main).

(** The body of [for cat in categories], up to the loop over pages. *)
Definition enter_category (driver : option WebDriver) (cat : pystr)
  : M unit :=
  driver_get driver URL_MAIN ;;
  let xpass_category :=
    py "//div[contains(text(),'" ++ cat ++ py "')]" in
  entry <- find_element driver (py "xpath") xpass_category ;;
  click_element driver entry ;;
  logger_debug "find category" ;;
  implicitly_wait driver 15.

(** The body of [for cat in categories]. *)
Definition parse_category (pages : nat) (cat : pystr)
           (loc : option WebDriver * list row)
  : M (option WebDriver * list row) :=
  let '(driver, products_main) := loc in
  enter_category driver cat ;;
  for_ (seq 0 pages) (fun _ => parse_page) (driver, products_main).

Definition parse_products_body (driver : option WebDriver)
           (categories : list pystr) (pages : nat)
  : M (option (list row)) :=
  let products_main : list row := [] in
  ' (driver, products_main) <-
    for_ categories (parse_category pages) (driver, products_main) ;;
  logger_debug "add products in main list" ;;
  close_driver driver ;;
  logger_debug "close driver" ;;
  ret (Some products_main).

Definition parse_products (driver : option WebDriver)
           (categories : list pystr) (pages : nat)
  : M (option (list row)) :=
  handle_exceptions (parse_products_body driver categories pages).

(** *** [save_to_csv] *)

(** [open(csv_file, mode='w', ...)]: the file is created or truncated. *)
Definition open_w : M unit :=
  fun st =>
    (Return tt, mkState (world st) (calls st) (log st) (Some [])).

(** [writer.writerow(r)] *)
Definition writerow (r : row) : M unit :=
  fun st =>
    (Return tt,
     mkState (world st) (calls st) (log st)
             (Some (match products_csv st with
                    | Some rows => rows ++ [r]
                    | None => [r]
                    end))).

(** [iter(products)] *)
Definition iter {A} (o : option (list A)) : M (list A) :=
  match o with
  | Some l => ret l
  | None =>
      raise (mkExn TypeError (py "'NoneType' object is not iterable"))
  end.

Definition save_to_csv_body (products : option (list row)) : M NoneType :=
  open_w ;;
  writerow csv_header ;;
  rows <- iter products ;;
  for_ rows (fun r _ => writerow r) tt ;;
  ret None.

Definition save_to_csv (products : option (list row)) : M NoneType :=
  handle_exceptions (save_to_csv_body products).

(** *** The module's top level *)

Definition main : M unit :=
  browser <- create_webdriver USER_AGENT true true ;;
  browser <- select_delivery_address browser ADDRESS ;;
  prods <- parse_products browser CATEGORIES 2 ;;
  save_to_csv prods ;;
  ret tt.

End Embedding.

Arguments M W A : clear implicits.

(* ================================================================== *)
(** ** Vocabulary of the properties *)

(** The state after one more log record. *)
Definition add_log {W} (st : state W) (r : log_record) : state W :=
  mkState (world st) (calls st) (log st ++ [r]) (products_csv st).

(** The state after [products.csv] has been rewritten. *)
Definition set_csv {W} (st : state W) (rows : list row) : state W :=
  mkState (world st) (calls st) (log st) (Some rows).

(** The record [logger.error(f'<prefix>{e}', exc_info=True)] emits. *)
Definition error_record (prefix : string) (e : exn) : log_record :=
  mkLog ERROR (py prefix ++ exn_str e) true.

(** The classes the wrapper contains. *)
Definition transient_classes : list exc_class :=
  [NoSuchElementException; TimeoutException;
   StaleElementReferenceException; SessionNotCreatedException;
   InvalidElementStateException; WebDriverException; TypeError;
   AttributeError].

Definition transient (e : exn) : bool :=
  existsb (isinstance e) transient_classes.

(** The message prefix of the [except] clause that contains [e]. *)
Definition contained_prefix (e : exn) : string :=
  if isinstance e NoSuchElementException then "Element not found: "
  else if isinstance e TimeoutException then "Timeout occurred: "
  else if isinstance e StaleElementReferenceException
       then "Stale element reference: "
  else if isinstance e SessionNotCreatedException
       then "Session not created: "
  else if isinstance e InvalidElementStateException
       then "Invalid element state: "
  else "Webdriver exception: ".

(** The strategies [find_element] recognises. *)
Definition recognized_methods : list pystr :=
  [py "xpath"; py "class_name"; py "css_selector"; py "id"; py "tag_name";
   py "delivery"].

Definition recognized (method : pystr) : bool :=
  existsb (pystr_eqb method) recognized_methods.

(** The header row as the specification words it. *)
Definition spec_header : row :=
  [Some (py "Наименование"); Some (py "Url_товара");
   Some (py "Url_изображения"); Some (py "Категория");
   Some (py "Полная цена"); Some (py "Цена со скидкой")].

(** Calls that close the browser window. *)
Definition is_close (c : call) : bool :=
  match c with DriverClose _ => true | _ => false end.

Definition closes (cs : list call) : nat := length (filter is_close cs).

(** Calls made on a given page element. *)
Definition on_element (e : WebElement) (c : call) : bool :=
  match c with
  | ElemClick x | ElemSendKeys x _ | ElemFindElement x _ _
  | ElemFindElements x _ _ | ElemText x | ElemGetAttribute x _ => x =? e
  | _ => false
  end.

(** [m] makes only calls that satisfy [P], whatever its outcome. *)
Definition emits {W A} (P : call -> Prop) (m : M W A) : Prop :=
  forall st, exists new,
    calls (snd (m st)) = calls st ++ new /\ Forall P new.

Definition not_close (c : call) : Prop := is_close c = false.

(** A match of the category pattern in [s]: it starts after [pre] and
    captures [v]. *)
Definition matches_at (s pre v : pystr) : Prop :=
  exists post,
    s = pre ++ category_prefix ++ v ++ dquote :: post
    /\ v <> [] /\ ~ In dquote v.

(** The leftmost match of the category pattern in [s] captures [v]. *)
Definition first_match (s v : pystr) : Prop :=
  exists pre,
    matches_at s pre v
    /\ forall pre' v', matches_at s pre' v' -> length pre <= length pre'.

Definition no_match (s : pystr) : Prop :=
  forall pre v, ~ matches_at s pre v.

(** A value is clean when it has no surrounding whitespace. *)
Definition clean (s : pystr) : Prop := strip s = s.

(** [m] keeps the property [I] of the state, whatever its outcome. *)
Definition preserves {W A} (I : state W -> Prop) (m : M W A) : Prop :=
  forall st, I st -> I (snd (m st)).

(** A property of the state that a call into the environment cannot
    change. *)
Definition call_blind {W} (I : state W -> Prop) : Prop :=
  forall st w cs, I st -> I (mkState w cs (log st) (products_csv st)).

(** A property of the state that an emitted log record cannot change. *)
Definition log_blind {W} (I : state W -> Prop) : Prop :=
  forall st r, I st -> lr_level r <> DEBUG -> I (add_log st r).

(** [products.csv] is as [x] says. *)
Definition csv_is {W} (x : option (list row)) (st : state W) : Prop :=
  products_csv st = x.

(** The log holds no record below the logger's level. *)
Definition no_debug {W} (st : state W) : Prop :=
  Forall (fun r => lr_level r <> DEBUG) (log st).

(** Lookups of the next-page arrow: the only [driver.find_elements]. *)
Definition is_arrow_lookup (c : call) : bool :=
  match c with DriverFindElements _ _ _ => true | _ => false end.

Definition arrow_lookups (cs : list call) : nat :=
  length (filter is_arrow_lookup cs).

Definition not_arrow_lookup (c : call) : Prop := is_arrow_lookup c = false.

(** A record as [parse_card] builds it: six fields in the order of the
    header, of which only the product link may be [None]. *)
Definition well_formed_record (r : row) : Prop :=
  exists name href src cat full price,
    r = [Some name; href; Some (URL_MAIN ++ src); Some cat; Some full;
         Some price]
    /\ cat <> [] /\ ~ In dquote cat.

(** Every code point of [s] is whitespace. *)
Definition blank (s : pystr) : Prop := Forall (fun c => isspace c = true) s.

(** The keys typed into page elements, in order. *)
Definition is_send_keys (c : call) : bool :=
  match c with ElemSendKeys _ _ => true | _ => false end.

Definition not_send_keys (c : call) : Prop := is_send_keys c = false.

Definition keys_sent (cs : list call) : list pystr :=
  flat_map (fun c => match c with
                     | ElemSendKeys _ keys => [keys]
                     | _ => []
                     end) cs.

(** The calls [select_delivery_address] makes in its own body, outside
    [find_element] and [click_element]: all but the waits of 10 and the
    hover-and-click. *)
Definition escaping (c : call) : bool :=
  match c with
  | WaitUntil _ timeout _ => negb (timeout =? 10)
  | ActionsMoveClick _ _ => false
  | _ => true
  end.

Definition contained_step (c : call) : Prop := escaping c = false.

(** The calls of an address selection that runs to its end, given what
    the four lookups returned ([accept] is [None] when the consent
    button was not found). *)
Definition address_trace (d : WebDriver) (addr : pystr)
           (accept : option WebElement)
           (delivery address save : WebElement) : list call :=
  [DriverGet d URL_MAIN;
   WaitUntil d 10
     (presence_of_element_located By_XPATH
        (py "//button[contains(text(),'Принять')]"))]
  ++ match accept with
     | Some a => [ActionsMoveClick d a]
     | None => []
     end
  ++ [WaitUntil d 15
        (element_to_be_clickable By_ID (py "availableReceiptTimeslot"));
      ActionsMove d delivery;
      TimeSleep 10;
      ElemClick delivery;
      WaitUntil d 10
        (presence_of_element_located By_CSS_SELECTOR
           (py "#addressSelectionQuery"));
      DriverImplicitlyWait d 15;
      ElemSendKeys address addr;
      DriverImplicitlyWait d 15;
      ElemSendKeys address Keys_ENTER;
      ElemSendKeys address Keys_ENTER;
      WaitUntil d 15
        (element_to_be_clickable By_ID (py "addressSelectionButton"));
      ActionsMove d save;
      ElemClick save;
      TimeSleep 10].

(** If [m] makes the call [c], it raises [e]. *)
Definition stops_at {W A} (c : call) (e : exn) (m : M W A) : Prop :=
  forall st, exists new,
    calls (snd (m st)) = calls st ++ new
    /\ (In c new -> fst (m st) = Raise e).

(** When [m] returns, the keys it has typed are [K]. *)
Definition sends {W A} (K : list pystr) (m : M W A) : Prop :=
  forall st a st',
    m st = (Return a, st') ->
    exists new, calls st' = calls st ++ new /\ keys_sent new = K.

(* ================================================================== *)
(** ** Scripted environments *)

Module Mock.

(** What a co-operative page answers: three product cards per page,
    each with a name, links, a script block naming a category and two
    prices; no next-page arrow. *)
Definition answer (c : call) : ret_type c :=
  match c return ret_type c with
  | Chrome _ _ => 1
  | DriverGet _ _ => tt
  | DriverFindElements _ _ _ => []
  | DriverImplicitlyWait _ _ => tt
  | DriverExecuteScript _ _ _ =>
      Some (py "item = {category: " ++ [dquote] ++ py "Snacks"
               ++ [dquote] ++ py "}")
  | DriverClose _ => tt
  | DriverQuit _ => tt
  | WaitUntil _ _ _ => 100
  | WaitUntilAll _ _ _ _ => [1; 2; 3]
  | ActionsMoveClick _ _ => tt
  | ActionsMove _ _ => tt
  | ElemClick _ => tt
  | ElemSendKeys _ _ => tt
  | ElemFindElement e _ _ => 10 * e
  | ElemFindElements e _ _ => [10 * e + 1; 10 * e + 2]
  | ElemText _ => py "Chips"
  | ElemGetAttribute _ name =>
      if pystr_eqb name (py "textContent") then Some (py " 1234,56 ₴ ")
      else Some (py "/chips")
  | TimeSleep _ => tt
  end.

(** An environment that raises where [faults] says so and answers
    co-operatively elsewhere. *)
Definition scripted (faults : call -> option exn) : Environment unit :=
  fun c w =>
    match faults c with
    | Some e => (Raise e, w)
    | None => (Return (answer c), w)
    end.

Definition healthy : Environment unit := scripted (fun _ => None).

Definition stale : exn :=
  mkExn StaleElementReferenceException (py "Message: stale element").

(** Every lookup inside card 2 finds its element gone. *)
Definition stale_card2 : Environment unit :=
  scripted (fun c =>
              match c with
              | ElemFindElement 2 _ _ => Some stale
              | _ => None
              end).

Definition timeout : exn :=
  mkExn TimeoutException (py "Message: ").

(** The delivery time-slot control never becomes clickable. *)
Definition no_delivery_slot : Environment unit :=
  scripted (fun c =>
              match c with
              | WaitUntil _ _ (element_to_be_clickable _ _) => Some timeout
              | _ => None
              end).

(** No element is ever found by XPath: neither the consent button nor a
    category entry. *)
Definition no_consent_button : Environment unit :=
  scripted (fun c =>
              match c with
              | WaitUntil _ _ (presence_of_element_located By_XPATH _) =>
                  Some timeout
              | _ => None
              end).

Definition session_lost : exn :=
  mkExn WebDriverException (py "Message: invalid session id").

(** The session is gone when the next-page arrow is looked up. *)
Definition lost_at_arrow : Environment unit :=
  scripted (fun c =>
              match c with
              | DriverFindElements _ _ _ => Some session_lost
              | _ => None
              end).

Definition interrupt : exn := mkExn KeyboardInterrupt [].

(** The state a run starts from. *)
Definition st0 : state unit := mkState tt [] [] None.

(** A page whose price blocks hold a single span. *)
Definition one_price : Environment unit :=
  fun c w =>
    match c as c0 return outcome (ret_type c0) * unit with
    | ElemFindElements e _ _ => (Return [10 * e + 1], w)
    | c' => (Return (answer c'), w)
    end.

(** The browser cannot be started. *)
Definition no_session : exn :=
  mkExn SessionNotCreatedException (py "Message: session not created").

Definition no_browser : Environment unit :=
  scripted (fun c =>
              match c with
              | Chrome _ _ => Some no_session
              | _ => None
              end).

(** Closing the window fails. *)
Definition close_fails : Environment unit :=
  scripted (fun c =>
              match c with
              | DriverClose _ => Some session_lost
              | _ => None
              end).

End Mock.

(* ================================================================== *)
(** ** The fault-containment wrapper *)

Section Wrapper.

Context {W : Type}.

Lemma transient_false (e : exn) :
  transient e = false ->
  isinstance e NoSuchElementException = false
  /\ isinstance e TimeoutException = false
  /\ isinstance e StaleElementReferenceException = false
  /\ isinstance e SessionNotCreatedException = false
  /\ isinstance e InvalidElementStateException = false
  /\ isinstance e WebDriverException = false
  /\ isinstance e TypeError = false
  /\ isinstance e AttributeError = false.
Proof.
  unfold transient, transient_classes; simpl.
  rewrite !orb_false_iff. tauto.
Qed.

Lemma handle_return {A} (func : M W (option A)) st a st1 :
  func st = (Return a, st1) ->
  handle_exceptions func st = (Return a, st1).
Proof. intros H. unfold handle_exceptions. now rewrite H. Qed.

Lemma handle_transient {A} (func : M W (option A)) st e st1 :
  func st = (Raise e, st1) ->
  transient e = true ->
  handle_exceptions func st
  = (Return None, add_log st1 (error_record (contained_prefix e) e)).
Proof.
  intros H T. unfold handle_exceptions, contained_prefix. rewrite H.
  unfold transient, transient_classes in T; simpl in T.
  destruct (isinstance e NoSuchElementException); [reflexivity|].
  destruct (isinstance e TimeoutException); [reflexivity|].
  destruct (isinstance e StaleElementReferenceException); [reflexivity|].
  destruct (isinstance e SessionNotCreatedException); [reflexivity|].
  destruct (isinstance e InvalidElementStateException); [reflexivity|].
  destruct (isinstance e WebDriverException); [reflexivity|].
  destruct (isinstance e TypeError); [reflexivity|].
  destruct (isinstance e AttributeError); [reflexivity|].
  discriminate T.
Qed.

Lemma handle_unexpected {A} (func : M W (option A)) st e st1 :
  func st = (Raise e, st1) ->
  transient e = false ->
  isinstance e Exception = true ->
  handle_exceptions func st
  = (Raise e, add_log st1 (error_record "An unexpected error occurred: " e)).
Proof.
  intros H T X. unfold handle_exceptions. rewrite H.
  destruct (transient_false e T) as (-> & -> & -> & -> & -> & -> & -> & ->).
  rewrite X. reflexivity.
Qed.

Lemma handle_uncaught {A} (func : M W (option A)) st e st1 :
  func st = (Raise e, st1) ->
  transient e = false ->
  isinstance e Exception = false ->
  handle_exceptions func st = (Raise e, st1).
Proof.
  intros H T X. unfold handle_exceptions. rewrite H.
  destruct (transient_false e T) as (-> & -> & -> & -> & -> & -> & -> & ->).
  rewrite X. reflexivity.
Qed.

(** What the wrapper lets out is never a contained class. *)
Lemma handle_raises_unexpected {A} (func : M W (option A)) st e st2 :
  handle_exceptions func st = (Raise e, st2) ->
  transient e = false
  /\ exists st1, func st = (Raise e, st1) /\ calls st2 = calls st1
                 /\ world st2 = world st1
                 /\ products_csv st2 = products_csv st1.
Proof.
  intros H. destruct (func st) as [[a|e'] st1] eqn:F.
  - rewrite (handle_return _ _ F) in H. discriminate.
  - destruct (transient e') eqn:T.
    + rewrite (handle_transient _ _ F T) in H. discriminate.
    + destruct (isinstance e' Exception) eqn:X.
      * rewrite (handle_unexpected _ _ F T X) in H.
        inversion H; subst. split; [assumption|].
        exists st1. now repeat split.
      * rewrite (handle_uncaught _ _ F T X) in H.
        inversion H; subst. split; [assumption|].
        exists st2. now repeat split.
Qed.

(** A [None] from a wrapped function whose body never returns [None]
    is a contained fault. *)
Lemma handle_none {A} (func : M W (option A)) st st2 :
  handle_exceptions func st = (Return None, st2) ->
  (forall st1, func st <> (Return None, st1)) ->
  exists e st1,
    func st = (Raise e, st1) /\ transient e = true
    /\ st2 = add_log st1 (error_record (contained_prefix e) e).
Proof.
  intros H N. destruct (func st) as [[a|e] st1] eqn:F.
  - rewrite (handle_return _ _ F) in H. inversion H; subst.
    exfalso. now apply (N st2).
  - destruct (transient e) eqn:T.
    + rewrite (handle_transient _ _ F T) in H. inversion H; subst.
      now exists e, st1.
    + destruct (isinstance e Exception) eqn:X.
      * rewrite (handle_unexpected _ _ F T X) in H. discriminate.
      * rewrite (handle_uncaught _ _ F T X) in H. discriminate.
Qed.

(** The wrapper makes no call of its own. *)
Lemma handle_calls {A} (func : M W (option A)) st :
  calls (snd (handle_exceptions func st)) = calls (snd (func st)).
Proof.
  destruct (func st) as [[a|e] st1] eqn:F.
  - now rewrite (handle_return _ _ F).
  - destruct (transient e) eqn:T.
    + now rewrite (handle_transient _ _ F T).
    + destruct (isinstance e Exception) eqn:X.
      * now rewrite (handle_unexpected _ _ F T X).
      * now rewrite (handle_uncaught _ _ F T X).
Qed.

(** C1, amended.  When the wrapped body raises [e]: if [e] is an
    instance of one of the eight contained classes, the call logs one
    error record and returns [None]; otherwise, if [e] is an instance
    of [Exception], the call logs exactly one error record and raises
    [e] again; and an exception outside [Exception] (such as
    [KeyboardInterrupt]) passes through with nothing logged. *)
Theorem handle_exceptions_tiers {A} (func : M W (option A)) st e st1 :
  func st = (Raise e, st1) ->
  (transient e = true ->
   exists r, handle_exceptions func st = (Return None, add_log st1 r)
             /\ lr_level r = ERROR)
  /\ (transient e = false -> isinstance e Exception = true ->
      exists r, handle_exceptions func st = (Raise e, add_log st1 r)
                /\ lr_level r = ERROR)
  /\ (transient e = false -> isinstance e Exception = false ->
      handle_exceptions func st = (Raise e, st1)).
Proof.
  intros F. repeat split.
  - intros T. eexists. split; [apply (handle_transient _ _ F T)|].
    reflexivity.
  - intros T X. eexists. split; [apply (handle_unexpected _ _ F T X)|].
    reflexivity.
  - intros T X. apply (handle_uncaught _ _ F T X).
Qed.

End Wrapper.

(** C1, witness: a stale reference is contained, an [IndexError] is
    logged once and raised again. *)
Lemma handle_exceptions_tiers_witness :
  (exists r, @handle_exceptions unit Empty_set
               (raise Mock.stale) Mock.st0
             = (Return None, add_log Mock.st0 r) /\ lr_level r = ERROR)
  /\ (exists r, @handle_exceptions unit Empty_set
                  (raise (mkExn IndexError [])) Mock.st0
                = (Raise (mkExn IndexError []), add_log Mock.st0 r)
                /\ lr_level r = ERROR).
Proof.
  split.
  - apply (@handle_exceptions_tiers unit Empty_set
             (raise Mock.stale) Mock.st0 Mock.stale Mock.st0 eq_refl).
    reflexivity.
  - apply (@handle_exceptions_tiers unit Empty_set
             (raise (mkExn IndexError [])) Mock.st0 (mkExn IndexError [])
             Mock.st0 eq_refl); reflexivity.
Defined.

(** C1 as stated fails: a body interrupted from the keyboard raises an
    exception that is none of the contained classes, and the wrapper lets
    it through without logging anything. *)
Lemma handle_exceptions_interrupt_unlogged :
  transient Mock.interrupt = false
  /\ @handle_exceptions unit Empty_set
       (raise Mock.interrupt) Mock.st0
     = (Raise Mock.interrupt, Mock.st0)
  /\ log Mock.st0 = []
  /\ ~ (exists r, @handle_exceptions unit Empty_set
                    (raise Mock.interrupt) Mock.st0
                  = (Raise Mock.interrupt, add_log Mock.st0 r)).
Proof.
  repeat split.
  intros [r H]. vm_compute in H. inversion H.
Qed.

(* ================================================================== *)
(** ** The locator resolver *)

Section Resolver.

Context {W : Type} {env : Environment W}.

Lemma recognized_false (method : pystr) :
  recognized method = false ->
  pystr_eqb method (py "xpath") = false
  /\ pystr_eqb method (py "class_name") = false
  /\ pystr_eqb method (py "css_selector") = false
  /\ pystr_eqb method (py "id") = false
  /\ pystr_eqb method (py "tag_name") = false
  /\ pystr_eqb method (py "delivery") = false.
Proof.
  unfold recognized, recognized_methods, existsb.
  rewrite !orb_false_iff. tauto.
Qed.

(** C2, amended.  For every strategy outside the recognised six, the
    body of [find_element] raises [AttributeError] before any call to
    the browser; the wrapper around [find_element] contains that class,
    so the caller gets [None] and one error record, and no exception. *)
Theorem find_element_unrecognized
        (driver : option WebDriver) (method loc : pystr) (st : state W) :
  recognized method = false ->
  find_element_body driver method loc st
  = (Raise (mkExn AttributeError (py "invalid name for parametr")), st)
  /\ find_element driver method loc st
     = (Return None,
        add_log st
          (error_record "Webdriver exception: "
             (mkExn AttributeError (py "invalid name for parametr")))).
Proof.
  intros R.
  destruct (recognized_false _ R) as (H1 & H2 & H3 & H4 & H5 & H6).
  assert (B : find_element_body driver method loc st
              = (Raise (mkExn AttributeError
                          (py "invalid name for parametr")), st)).
  { unfold find_element_body.
    rewrite H1, H2, H3, H4, H5, H6. reflexivity. }
  split; [exact B|].
  unfold find_element.
  rewrite (handle_transient _ _ B); reflexivity.
Qed.

End Resolver.

(** C2, witness: the strategy [name]. *)
Lemma find_element_unrecognized_witness :
  @find_element_body unit Mock.healthy (Some 1) (py "name") (py "q")
    Mock.st0
  = (Raise (mkExn AttributeError (py "invalid name for parametr")),
     Mock.st0)
  /\ @find_element unit Mock.healthy (Some 1) (py "name") (py "q")
       Mock.st0
     = (Return None,
        add_log Mock.st0
          (error_record "Webdriver exception: "
             (mkExn AttributeError (py "invalid name for parametr")))).
Proof.
  apply (@find_element_unrecognized unit Mock.healthy (Some 1) (py "name")
           (py "q") Mock.st0).
  reflexivity.
Defined.

(** C2 as stated fails: with the unrecognised strategy [name] the call
    raises nothing to its caller; it returns [None] after one error
    record. *)
Lemma find_element_unrecognized_swallowed :
  recognized (py "name") = false
  /\ fst (@find_element unit Mock.healthy (Some 1) (py "name") (py "q")
            Mock.st0) = Return None
  /\ (forall e, fst (@find_element unit Mock.healthy (Some 1) (py "name")
                       (py "q") Mock.st0) <> Raise e)
  /\ map lr_level
         (log (snd (@find_element unit Mock.healthy (Some 1) (py "name")
                      (py "q") Mock.st0))) = [ERROR].
Proof.
  repeat split. intros e H. vm_compute in H. discriminate H.
Qed.

(* ================================================================== *)
(** ** Pagination *)

Section Pagination.

Context {W : Type} {env : Environment W}.

(** C9, amended.  Once the lookup of the next-page arrow has returned a
    list, [go_next_page] returns the driver it was given and raises
    nothing, whatever the list holds and whatever the click does: an
    empty list, an arrow that is not interactable and a click raising
    any other exception all end in the [finally] block's [return]. *)
Theorem go_next_page_returns_driver
        (d : WebDriver) (st : state W) (next : list WebElement) (w : W) :
  respond (DriverFindElements d By_CLASS_NAME (py "right_arrow"))
          (world st) = (Return next, w) ->
  exists st', go_next_page (Some d) st = (Return (Some d), st').
Proof.
  intros H. unfold go_next_page, deref, bind, ret, invoke.
  rewrite H. unfold finally_return. eexists. reflexivity.
Qed.

(** When the lookup itself raises, [go_next_page] raises the same
    exception: the lookup is outside the [try]. *)
Lemma go_next_page_lookup_raises
      (d : WebDriver) (st : state W) (e : exn) (w : W) :
  respond (DriverFindElements d By_CLASS_NAME (py "right_arrow"))
          (world st) = (Raise e, w) ->
  exists st', go_next_page (Some d) st = (Raise e, st').
Proof.
  intros H. unfold go_next_page, deref, bind, ret, invoke.
  rewrite H. eexists. reflexivity.
Qed.

End Pagination.

(** C9, witness: a page without an arrow, so that indexing the empty
    list fails inside the [try]. *)
Lemma go_next_page_returns_driver_witness :
  exists st', @go_next_page unit Mock.healthy (Some 1) Mock.st0
              = (Return (Some 1), st').
Proof.
  apply (@go_next_page_returns_driver unit Mock.healthy 1 Mock.st0 [] tt).
  reflexivity.
Defined.

(** C9 as stated fails: when the session is lost, the lookup of the arrow
    raises and [go_next_page] lets that exception out. *)
Lemma go_next_page_propagates_lookup_fault :
  fst (@go_next_page unit Mock.lost_at_arrow (Some 1) Mock.st0)
  = Raise Mock.session_lost.
Proof. reflexivity. Qed.

(* ================================================================== *)
(** ** The result sink *)

Section Sink.

Context {W : Type} {env : Environment W}.

Lemma writerows (rows cur : list row) (st : state W) :
  products_csv st = Some cur ->
  for_ rows (fun r _ => writerow r) tt st
  = (Return tt, set_csv st (cur ++ rows)).
Proof.
  revert cur st. induction rows as [|r rows IH]; intros cur st H.
  - simpl. unfold ret, set_csv. rewrite app_nil_r, <- H.
    now destruct st.
  - simpl. unfold bind. unfold writerow at 1. rewrite H.
    rewrite (IH (cur ++ [r])) by reflexivity.
    unfold set_csv. simpl. now rewrite <- app_assoc.
Qed.

Lemma save_to_csv_list (rows : list row) (st : state W) :
  save_to_csv (Some rows) st
  = (Return None, set_csv st (csv_header :: rows)).
Proof.
  unfold save_to_csv. apply handle_return.
  unfold save_to_csv_body, bind, open_w, iter, ret.
  unfold writerow at 1. simpl.
  rewrite (writerows rows (cur := [csv_header])) by reflexivity.
  reflexivity.
Qed.

Lemma save_to_csv_None (st : state W) :
  save_to_csv None st
  = (Return None,
     add_log (set_csv st [csv_header])
       (error_record "Webdriver exception: "
          (mkExn TypeError (py "'NoneType' object is not iterable")))).
Proof. reflexivity. Qed.

(** C6, as the code has it.  For every list of records the file is
    rewritten to the header row followed by the records in order; the
    sixth name of the header the code writes is [Цена соскидкой], not
    the [Цена со скидкой] of the specification, while the first five
    names agree. *)
Theorem save_to_csv_header_misspelt (rows : list row) (st : state W) :
  save_to_csv (Some rows) st
  = (Return None, set_csv st (csv_header :: rows))
  /\ firstn 5 csv_header = firstn 5 spec_header
  /\ nth_error csv_header 5 = Some (Some (py "Цена соскидкой"))
  /\ nth_error spec_header 5 = Some (Some (py "Цена со скидкой"))
  /\ csv_header <> spec_header.
Proof.
  split; [apply save_to_csv_list|].
  split; [vm_compute; reflexivity|].
  split; [vm_compute; reflexivity|].
  split; [vm_compute; reflexivity|].
  intros H. vm_compute in H. discriminate H.
Qed.

Variable PATH USER_AGENT : pystr.

(** C10.  [save_to_csv(None)] returns normally: the file is truncated
    and holds the header row alone, and the [TypeError] of iterating
    [None] is logged, not raised.  Hence a run whose [parse_products]
    yielded [None] ends normally with that file. *)
Theorem save_to_csv_None_header_only
        (st s1 s2 s3 : state W) (b1 b2 : option WebDriver) :
  create_webdriver PATH USER_AGENT true true st = (Return b1, s1) ->
  select_delivery_address b1 ADDRESS s1 = (Return b2, s2) ->
  parse_products b2 CATEGORIES 2 s2 = (Return None, s3) ->
  let not_iterable :=
    mkExn TypeError (py "'NoneType' object is not iterable") in
  let s4 :=
    add_log (set_csv s3 [csv_header])
      (error_record "Webdriver exception: " not_iterable) in
  save_to_csv None s3 = (Return None, s4)
  /\ products_csv s4 = Some [csv_header]
  /\ main PATH USER_AGENT st = (Return tt, s4).
Proof.
  intros H1 H2 H3 e s4. split; [apply save_to_csv_None|].
  split; [reflexivity|].
  unfold main, bind. rewrite H1, H2, H3, save_to_csv_None.
  reflexivity.
Qed.

End Sink.

(** C10, witness: a run in which a stale card makes [parse_products]
    yield [None]. *)
Lemma save_to_csv_None_header_only_witness :
  products_csv (snd (@main unit Mock.stale_card2 [] [] Mock.st0))
  = Some [csv_header]
  /\ fst (@main unit Mock.stale_card2 [] [] Mock.st0) = Return tt.
Proof.
  pose proof
    (@save_to_csv_None_header_only unit Mock.stale_card2 [] [] Mock.st0
       (snd (@create_webdriver unit Mock.stale_card2 [] [] true true
               Mock.st0))
       (snd (@select_delivery_address unit Mock.stale_card2 (Some 1)
               ADDRESS
               (snd (@create_webdriver unit Mock.stale_card2 [] [] true
                       true Mock.st0))))
       (snd (@parse_products unit Mock.stale_card2 (Some 1) CATEGORIES 2
               (snd (@select_delivery_address unit Mock.stale_card2
                       (Some 1) ADDRESS
                       (snd (@create_webdriver unit Mock.stale_card2 [] []
                               true true Mock.st0))))))
       (Some 1) (Some 1)
       ltac:(vm_compute; reflexivity) ltac:(vm_compute; reflexivity)
       ltac:(vm_compute; reflexivity)) as H.
  cbv zeta in H. destruct H as (_ & _ & H).
  rewrite H. split; reflexivity.
Defined.

(* ================================================================== *)
(** ** Price normalisation *)

Section Prices.

Lemma lstrip_head (s : pystr) :
  lstrip s = [] \/ exists c r, lstrip s = c :: r /\ isspace c = false.
Proof.
  induction s as [|c r IH]; simpl.
  - now left.
  - destruct (isspace c) eqn:E; [exact IH|].
    right. now exists c, r.
Qed.

Lemma lstrip_fixed (c : N) (r : pystr) :
  isspace c = false -> lstrip (c :: r) = c :: r.
Proof. intros E. simpl. now rewrite E. Qed.

Lemma lstrip_idempotent (s : pystr) : lstrip (lstrip s) = lstrip s.
Proof.
  destruct (lstrip_head s) as [-> | (c & r & -> & E)].
  - reflexivity.
  - now apply lstrip_fixed.
Qed.

Lemma lstrip_snoc (l : pystr) (c : N) :
  isspace c = false -> lstrip (l ++ [c]) = lstrip l ++ [c].
Proof.
  intros E. induction l as [|x l IH]; simpl.
  - now rewrite E.
  - now destruct (isspace x).
Qed.

Lemma rstrip_cons (c : N) (r : pystr) :
  isspace c = false -> rstrip (c :: r) = c :: rstrip r.
Proof.
  intros E. unfold rstrip. simpl.
  rewrite (lstrip_snoc (rev r) c E), rev_app_distr. reflexivity.
Qed.

Lemma rstrip_idempotent (s : pystr) : rstrip (rstrip s) = rstrip s.
Proof.
  unfold rstrip. now rewrite rev_involutive, lstrip_idempotent.
Qed.

Lemma strip_idempotent (s : pystr) : strip (strip s) = strip s.
Proof.
  unfold strip.
  destruct (lstrip_head s) as [-> | (c & r & -> & E)].
  - reflexivity.
  - rewrite (rstrip_cons c r E), (lstrip_fixed c (rstrip r) E).
    rewrite <- (rstrip_cons c r E). apply rstrip_idempotent.
Qed.

Lemma drop_last_length (n : nat) (s : pystr) :
  length (drop_last n s) = length s - n.
Proof. unfold drop_last. rewrite length_firstn. lia. Qed.

(** C8, amended.  The full-price text of the example is normalised to
    its digits; trimming is idempotent; but on a value that is already
    clean the whole operation still drops the last two code points, so
    it leaves a clean value unchanged only when that value is empty. *)
Theorem normalise_price_spec :
  normalise_price (py "1234,56 ₴") = py "1234,56"
  /\ (forall s, strip (strip s) = strip s)
  /\ (forall s, clean s ->
                normalise_price s = drop_last 2 s
                /\ length (normalise_price s) = length s - 2)
  /\ (forall s, clean s -> normalise_price s = s -> s = []).
Proof.
  split; [vm_compute; reflexivity|].
  split; [exact strip_idempotent|].
  assert (D : forall s, clean s -> normalise_price s = drop_last 2 s).
  { intros s C. unfold normalise_price. now rewrite C. }
  split.
  - intros s C. split; [now apply D|].
    rewrite (D s C). apply drop_last_length.
  - intros s C H. rewrite (D s C) in H.
    apply (f_equal (@length N)) in H. rewrite drop_last_length in H.
    destruct s as [|a [|b s]]; [reflexivity| |]; simpl in H; lia.
Qed.

End Prices.

(** C8, witness: the clean value [1234,56]. *)
Lemma normalise_price_spec_witness :
  normalise_price (py "1234,56") = drop_last 2 (py "1234,56")
  /\ length (normalise_price (py "1234,56")) = length (py "1234,56") - 2.
Proof.
  apply normalise_price_spec. vm_compute. reflexivity.
Defined.

(** C8 as stated fails: the value [1234,56] has neither surrounding
    whitespace nor a currency suffix, and normalising it gives [1234,]. *)
Lemma normalise_price_not_idempotent :
  clean (py "1234,56")
  /\ normalise_price (py "1234,56") = py "1234,"
  /\ normalise_price (py "1234,56") <> py "1234,56"
  /\ normalise_price (normalise_price (py "1234,56 ₴"))
     <> normalise_price (py "1234,56 ₴").
Proof.
  split; [vm_compute; reflexivity|].
  split; [vm_compute; reflexivity|].
  split; intros H; vm_compute in H; discriminate H.
Qed.

(* ================================================================== *)
(** ** The category label *)

Section Category.

Context {W : Type}.

Lemma match_lits_app (l : pystr) (p : Re.regex) (s : pystr) :
  Re.match_here (map Re.Lit l ++ p) (l ++ s) = Re.match_here p s.
Proof.
  induction l as [|c l IH]; simpl; [reflexivity|].
  now rewrite N.eqb_refl.
Qed.

Lemma match_lits_inv (l : pystr) (p : Re.regex) :
  forall s gs,
    Re.match_here (map Re.Lit l ++ p) s = Some gs ->
    exists s', s = l ++ s' /\ Re.match_here p s' = Some gs.
Proof.
  induction l as [|c l IH]; simpl; intros s gs H.
  - now exists s.
  - destruct s as [|x s]; [discriminate|].
    destruct (x =? c)%N eqn:E; [|discriminate].
    apply N.eqb_eq in E. subst x.
    destruct (IH _ _ H) as (s' & -> & H').
    now exists s'.
Qed.

Lemma plus_not_cons (c : N) (k : pystr -> option (list pystr))
      (x : N) (s acc : pystr) :
  Re.plus_not c k (x :: s) acc
  = if (x =? c)%N then None
    else match Re.plus_not c k s (acc ++ [x]) with
         | Some gs => Some gs
         | None => match k s with
                   | Some gs => Some ((acc ++ [x]) :: gs)
                   | None => None
                   end
         end.
Proof. reflexivity. Qed.

Lemma closing_quote (s : pystr) (gs : list pystr) :
  Re.match_here [Re.Lit dquote] s = Some gs
  <-> (exists post, s = dquote :: post) /\ gs = [].
Proof.
  destruct s as [|y s]; simpl.
  - split; [discriminate|]. now intros [[post E] _].
  - destruct (y =? dquote)%N eqn:Y.
    + apply N.eqb_eq in Y. subst y. split.
      * intros H. injection H as <-. split; [now exists s|reflexivity].
      * now intros [_ ->].
    + apply N.eqb_neq in Y. split; [discriminate|].
      intros [[post E] _]. injection E as E _. now apply Y in E.
Qed.

Lemma plus_not_complete (v : pystr) :
  forall post acc,
    v <> [] -> ~ In dquote v ->
    Re.plus_not dquote (Re.match_here [Re.Lit dquote])
                (v ++ dquote :: post) acc
    = Some [acc ++ v].
Proof.
  induction v as [|x v IH]; intros post acc NE NI; [contradiction|].
  assert (X : (x =? dquote)%N = false).
  { apply N.eqb_neq. intros ->. apply NI. now left. }
  rewrite <- app_comm_cons, plus_not_cons, X.
  destruct v as [|y v].
  - reflexivity.
  - rewrite IH; [|discriminate|intros I; apply NI; now right].
    now rewrite <- app_assoc.
Qed.

Lemma plus_not_sound (s : pystr) :
  forall acc gs,
    Re.plus_not dquote (Re.match_here [Re.Lit dquote]) s acc = Some gs ->
    exists v post,
      s = v ++ dquote :: post /\ v <> [] /\ ~ In dquote v
      /\ gs = [acc ++ v].
Proof.
  induction s as [|x s IH]; intros acc gs H; [discriminate|].
  rewrite plus_not_cons in H.
  destruct (x =? dquote)%N eqn:X; [discriminate|].
  apply N.eqb_neq in X.
  destruct (Re.plus_not dquote (Re.match_here [Re.Lit dquote]) s
                        (acc ++ [x])) as [gs'|] eqn:P.
  - injection H as ->.
    destruct (IH _ _ P) as (v & post & -> & NE & NI & ->).
    exists (x :: v), post. repeat split.
    + discriminate.
    + intros [E|I]; [now apply X|now apply NI].
    + now rewrite <- app_assoc.
  - destruct (Re.match_here [Re.Lit dquote] s) as [gs'|] eqn:C;
      [|discriminate].
    injection H as <-.
    apply closing_quote in C. destruct C as [[post ->] ->].
    exists [x], post. repeat split.
    + discriminate.
    + intros [E|[]]. now apply X.
Qed.

Lemma match_category_complete (v post : pystr) :
  v <> [] -> ~ In dquote v ->
  Re.match_here category_pattern (category_prefix ++ v ++ dquote :: post)
  = Some [v].
Proof.
  intros NE NI. unfold category_pattern. rewrite match_lits_app.
  change (Re.plus_not dquote (Re.match_here [Re.Lit dquote])
                      (v ++ dquote :: post) []
          = Some [v]).
  now rewrite plus_not_complete.
Qed.

Lemma match_category_sound (s : pystr) (gs : list pystr) :
  Re.match_here category_pattern s = Some gs ->
  exists v post,
    s = category_prefix ++ v ++ dquote :: post
    /\ v <> [] /\ ~ In dquote v /\ gs = [v].
Proof.
  intros H. unfold category_pattern in H.
  destruct (match_lits_inv _ _ _ H) as (s' & -> & H').
  change (Re.plus_not dquote (Re.match_here [Re.Lit dquote]) s' []
          = Some gs) in H'.
  destruct (plus_not_sound _ _ H') as (v & post & -> & NE & NI & ->).
  now exists v, post.
Qed.

Lemma search_hit (p : Re.regex) (s : pystr) (gs : list pystr) :
  Re.match_here p s = Some gs -> Re.search p s = Some gs.
Proof. intros H. destruct s; simpl; now rewrite H. Qed.

Lemma search_skip (p : Re.regex) (pre s : pystr) :
  (forall a b, pre = a ++ b -> b <> [] ->
               Re.match_here p (b ++ s) = None) ->
  Re.search p (pre ++ s) = Re.search p s.
Proof.
  induction pre as [|x pre IH]; intros H; [reflexivity|].
  assert (E : Re.match_here p (x :: pre ++ s) = None).
  { apply (H [] (x :: pre) eq_refl). discriminate. }
  simpl. rewrite E.
  apply IH. intros a b -> NE. now apply (H (x :: a) b).
Qed.

Lemma search_none (p : Re.regex) (s : pystr) :
  (forall a b, s = a ++ b -> Re.match_here p b = None) ->
  Re.search p s = None.
Proof.
  induction s as [|x s IH]; intros H.
  - simpl. now rewrite (H [] [] eq_refl).
  - simpl. rewrite (H [] (x :: s) eq_refl).
    apply IH. intros a b ->. now apply (H (x :: a) b).
Qed.

Lemma search_first_match (js v : pystr) :
  first_match js v -> Re.search category_pattern js = Some [v].
Proof.
  intros (pre & (post & -> & NE & NI) & L).
  rewrite search_skip.
  - apply search_hit. now apply match_category_complete.
  - intros a b -> NEb.
    destruct (Re.match_here category_pattern
                (b ++ category_prefix ++ v ++ dquote :: post))
      as [gs|] eqn:Mt; [exfalso|reflexivity].
    destruct (match_category_sound _ Mt) as (v' & post' & E & NE' & NI' & _).
    assert (Ma : matches_at
                   ((a ++ b) ++ category_prefix ++ v ++ dquote :: post)
                   a v').
    { exists post'. rewrite <- app_assoc, E. now repeat split. }
    apply L in Ma. rewrite length_app in Ma.
    destruct b; [now apply NEb|]. simpl in Ma. lia.
Qed.

Lemma search_no_match (js : pystr) :
  no_match js -> Re.search category_pattern js = None.
Proof.
  intros N. apply search_none. intros a b ->.
  destruct (Re.match_here category_pattern b) as [gs|] eqn:Mt;
    [exfalso|reflexivity].
  destruct (match_category_sound _ Mt) as (v & post & -> & NE & NI & _).
  apply (N a v). now exists post.
Qed.

(** C7.  When the script content has a match of the category pattern,
    the field appended to the record is what the leftmost match
    captures and nothing is logged; when it has none, the field is the
    sentinel [no category] and exactly one warning is logged. *)
Theorem category_step_spec (lst : row) (js_code : pystr) (st : state W) :
  (forall v, first_match js_code v ->
             category_step lst (Some js_code) st
             = (Return (lst ++ [Some v]), st))
  /\ (no_match js_code ->
      category_step lst (Some js_code) st
      = (Return (lst ++ [Some (py "no category")]),
         add_log st (mkLog WARNING (py "category not found") false))).
Proof.
  split.
  - intros v F. unfold category_step, try_except, bind, ret.
    rewrite (search_first_match F). reflexivity.
  - intros N. unfold category_step, try_except, bind, ret.
    rewrite (search_no_match N). reflexivity.
Qed.

End Category.

(** C7, witness: the content [category: "Snacks"}] yields [Snacks], and
    content without a quoted label yields the sentinel and one warning. *)
Lemma category_step_spec_witness :
  @category_step unit [Some (py "Chips")]
    (Some (category_prefix ++ py "Snacks" ++ dquote :: py "}")) Mock.st0
  = (Return ([Some (py "Chips")] ++ [Some (py "Snacks")]), Mock.st0)
  /\ @category_step unit [Some (py "Chips")] (Some (py "category: none"))
       Mock.st0
     = (Return ([Some (py "Chips")] ++ [Some (py "no category")]),
        add_log Mock.st0
          (mkLog WARNING (py "category not found") false)).
Proof.
  split.
  - apply (@category_step_spec unit [Some (py "Chips")]
             (category_prefix ++ py "Snacks" ++ dquote :: py "}") Mock.st0).
    exists []. split.
    + exists (py "}"). split; [reflexivity|].
      split; [discriminate|].
      vm_compute. intuition discriminate.
    + intros pre' v' _. simpl. lia.
  - apply (@category_step_spec unit [Some (py "Chips")]
             (py "category: none") Mock.st0).
    intros pre v (post & E & NE & NI).
    assert (I : In dquote (py "category: none")).
    { rewrite E. rewrite !in_app_iff. right. left.
      unfold category_prefix. rewrite in_app_iff. right. now left. }
    vm_compute in I. intuition discriminate.
Defined.

(* ================================================================== *)
(** ** Traces of calls *)

Section Traces.

Context {W : Type} {env : Environment W}.
Variable P : call -> Prop.

Lemma emits_ret {A} (a : A) : emits P (ret (W := W) a).
Proof. intros st. exists []. simpl. now rewrite app_nil_r. Qed.

Lemma emits_raise {A} (e : exn) : emits P (raise (W := W) (A := A) e).
Proof. intros st. exists []. simpl. now rewrite app_nil_r. Qed.

Lemma emits_bind {A B} (m : M W A) (k : A -> M W B) :
  emits P m -> (forall a, emits P (k a)) -> emits P (bind m k).
Proof.
  intros Hm Hk st. destruct (Hm st) as (n1 & E1 & F1).
  unfold bind. destruct (m st) as [[a|e] st1]; simpl in *.
  - destruct (Hk a st1) as (n2 & E2 & F2).
    exists (n1 ++ n2). rewrite E2, E1, app_assoc.
    split; [reflexivity|]. apply Forall_app. now split.
  - now exists n1.
Qed.

Lemma emits_invoke (c : call) : P c -> emits P (invoke c).
Proof.
  intros Pc st. exists [c]. unfold invoke.
  destruct (respond c (world st)) as [r w]. simpl.
  split; [reflexivity|]. now constructor.
Qed.

Lemma emits_logger_log (l : level) (msg : pystr) (x : bool) :
  emits P (logger_log (W := W) l msg x).
Proof.
  intros st. exists []. unfold logger_log.
  destruct (levelno logger_level <=? levelno l); simpl;
    now rewrite app_nil_r.
Qed.

Lemma emits_try_except {A} (body : M W A) (c : exc_class)
      (handler : exn -> M W A) :
  emits P body -> (forall e, emits P (handler e)) ->
  emits P (try_except body c handler).
Proof.
  intros Hb Hh st. destruct (Hb st) as (n1 & E1 & F1).
  unfold try_except. destruct (body st) as [[a|e] st1]; simpl in *.
  - now exists n1.
  - destruct (isinstance e c); [|now exists n1].
    destruct (Hh e st1) as (n2 & E2 & F2).
    exists (n1 ++ n2). rewrite E2, E1, app_assoc.
    split; [reflexivity|]. apply Forall_app. now split.
Qed.

Lemma emits_finally_return {A B} (body : M W A) (v : B) :
  emits P body -> emits P (finally_return body v).
Proof. intros Hb st. exact (Hb st). Qed.

Lemma emits_handle_exceptions {A} (func : M W (option A)) :
  emits P func -> emits P (handle_exceptions func).
Proof. intros Hf st. rewrite handle_calls. exact (Hf st). Qed.

Lemma emits_for_ {A S} (body : A -> S -> M W S) :
  (forall x s, emits P (body x s)) ->
  forall xs s, emits P (for_ xs body s).
Proof.
  intros Hb xs. induction xs as [|x xs IH]; intros s; simpl.
  - apply emits_ret.
  - apply emits_bind; [apply Hb|exact IH].
Qed.

Lemma emits_deref {A} (o : option A) (attr : string) :
  emits P (deref (W := W) o attr).
Proof. destruct o; [apply emits_ret|apply emits_raise]. Qed.

Lemma emits_index {A} (l : list A) (i : nat) :
  emits P (index (W := W) l i).
Proof.
  unfold index. destruct (nth_error l i);
    [apply emits_ret|apply emits_raise].
Qed.

Lemma emits_str_add (a : pystr) (b : option pystr) :
  emits P (str_add (W := W) a b).
Proof. destruct b; [apply emits_ret|apply emits_raise]. Qed.

End Traces.

Ltac emits_step :=
  lazymatch goal with
  | |- emits _ (match ?x with Some _ => _ | None => _ end) => destruct x
  | |- emits _ (if ?b then _ else _) => destruct b
  | |- emits ?P (invoke ?c) => apply (@emits_invoke _ _ P c); reflexivity
  | |- _ =>
      first
        [ apply emits_logger_log
        | apply emits_deref | apply emits_index | apply emits_str_add
        | apply emits_handle_exceptions
        | apply emits_finally_return
        | apply emits_try_except; [|intros ?]
        | apply emits_for_; intros ? ?
        | apply emits_ret | apply emits_raise
        | apply emits_bind; [|intros ?] ]
  end.

(* ================================================================== *)
(** ** The session across [parse_products] *)

Section Session.

Context {W : Type} {env : Environment W}.

Lemma bind_return_inv {A B} (m : M W A) (k : A -> M W B) st b st' :
  bind m k st = (Return b, st') ->
  exists a st1, m st = (Return a, st1) /\ k a st1 = (Return b, st').
Proof.
  unfold bind. destruct (m st) as [[a|e] st1]; [|discriminate].
  intros H. now exists a, st1.
Qed.

Lemma bind_return {A B} (m : M W A) (k : A -> M W B) st a st'
      (H : m st = (Return a, st')) :
  bind m k st = k a st'.
Proof. unfold bind. now rewrite H. Qed.

Lemma bind_raise {A B} (m : M W A) (k : A -> M W B) st e st'
      (H : m st = (Raise e, st')) :
  bind m k st = (Raise e, st').
Proof. unfold bind. now rewrite H. Qed.

Lemma logger_debug_noop (msg : string) (st : state W) :
  logger_debug msg st = (Return tt, st).
Proof. reflexivity. Qed.

Lemma closes_app (a b : list call) : closes (a ++ b) = closes a + closes b.
Proof. unfold closes. now rewrite filter_app, length_app. Qed.

Lemma closes_none (cs : list call) : Forall not_close cs -> closes cs = 0.
Proof.
  unfold closes. induction 1 as [|c cs Hc _ IH]; [reflexivity|].
  simpl. now rewrite Hc.
Qed.

(** No step before the final [close_driver] closes the window. *)

Lemma emits_find_element (driver : option WebDriver) (method loc : pystr) :
  emits not_close (find_element driver method loc).
Proof.
  unfold find_element, find_element_body, until. repeat emits_step.
Qed.

Lemma emits_click_element (driver : option WebDriver)
      (element : option WebElement) :
  emits not_close (click_element driver element).
Proof.
  unfold click_element, click_element_body, move_to_element.
  repeat emits_step.
Qed.

Lemma emits_go_next_page (driver : option WebDriver) :
  emits not_close (go_next_page driver).
Proof. unfold go_next_page, logger_debug. repeat emits_step. Qed.

Lemma emits_parse_card (driver : option WebDriver) (prod : WebElement)
      (products_main : list row) :
  emits not_close (parse_card driver prod products_main).
Proof.
  unfold parse_card, category_step, logger_info, logger_warning.
  repeat emits_step.
Qed.

Lemma emits_parse_page (loc : option WebDriver * list row) :
  emits not_close (parse_page loc).
Proof.
  destruct loc as [driver products_main].
  unfold parse_page, until_all, logger_debug, time_sleep.
  apply emits_bind; [repeat emits_step|intros cards].
  apply emits_bind; [repeat emits_step|intros _].
  apply emits_bind;
    [apply emits_for_; intros; apply emits_parse_card|intros pm].
  apply emits_bind; [apply emits_go_next_page|intros drv].
  repeat emits_step.
Qed.

Lemma emits_enter_category (driver : option WebDriver) (cat : pystr) :
  emits not_close (enter_category driver cat).
Proof.
  unfold enter_category, driver_get, implicitly_wait, logger_debug.
  apply emits_bind; [repeat emits_step|intros _].
  apply emits_bind; [apply emits_find_element|intros entry].
  apply emits_bind; [apply emits_click_element|intros _].
  repeat emits_step.
Qed.

Lemma emits_parse_category (pages : nat) (cat : pystr)
      (loc : option WebDriver * list row) :
  emits not_close (parse_category pages cat loc).
Proof.
  destruct loc as [driver products_main]. unfold parse_category.
  apply emits_bind; [apply emits_enter_category|intros _].
  apply emits_for_. intros _ s. apply emits_parse_page.
Qed.

(** The loops hand back the driver they were given. *)

Lemma go_next_page_value (driver a : option WebDriver) st st' :
  go_next_page driver st = (Return a, st') -> a = driver.
Proof.
  unfold go_next_page. intros H.
  apply bind_return_inv in H. destruct H as (d & s1 & _ & H).
  apply bind_return_inv in H. destruct H as (next & s2 & _ & H).
  unfold finally_return in H. now injection H as <- _.
Qed.

Lemma parse_page_driver (drv drv' : option WebDriver)
      (pm pm' : list row) st st' :
  parse_page (drv, pm) st = (Return (drv', pm'), st') -> drv' = drv.
Proof.
  unfold parse_page. intros H.
  apply bind_return_inv in H. destruct H as (cards & s1 & _ & H).
  apply bind_return_inv in H. destruct H as (? & s2 & _ & H).
  apply bind_return_inv in H. destruct H as (pm1 & s3 & _ & H).
  apply bind_return_inv in H. destruct H as (drv1 & s4 & G & H).
  apply bind_return_inv in H. destruct H as (? & s5 & _ & H).
  apply go_next_page_value in G. subst drv1.
  unfold ret in H. now injection H as <- _ _.
Qed.

Lemma pages_driver (xs : list nat) :
  forall (drv drv' : option WebDriver) (pm pm' : list row) st st',
    for_ xs (fun _ => parse_page) (drv, pm) st
    = (Return (drv', pm'), st') -> drv' = drv.
Proof.
  induction xs as [|x xs IH]; simpl; intros drv drv' pm pm' st st' H.
  - unfold ret in H. now injection H as <- _ _.
  - apply bind_return_inv in H. destruct H as ([d1 p1] & s1 & G & H).
    apply parse_page_driver in G. subst d1. exact (IH _ _ _ _ _ _ H).
Qed.

Lemma categories_driver (pages : nat) (cats : list pystr) :
  forall (drv drv' : option WebDriver) (pm pm' : list row) st st',
    for_ cats (parse_category pages) (drv, pm) st
    = (Return (drv', pm'), st') -> drv' = drv.
Proof.
  induction cats as [|c cats IH]; simpl; intros drv drv' pm pm' st st' H.
  - unfold ret in H. now injection H as <- _ _.
  - apply bind_return_inv in H. destruct H as ([d1 p1] & s1 & G & H).
    unfold parse_category in G.
    apply bind_return_inv in G. destruct G as (? & s2 & _ & G).
    apply pages_driver in G. subst d1. exact (IH _ _ _ _ _ _ H).
Qed.

(** [close_driver] on a live session closes the window once. *)
Lemma close_driver_closes_once (d : WebDriver) (st : state W) :
  exists new,
    calls (snd (close_driver (Some d) st)) = calls st ++ new
    /\ closes new = 1.
Proof.
  unfold close_driver, NoneType. rewrite handle_calls.
  unfold close_driver_body, deref, bind, ret, invoke.
  destruct (respond (DriverClose d) (world st)) as [[u|e] w]; simpl.
  - destruct (respond (DriverQuit d) w) as [[u'|e] w']; simpl;
      exists [DriverClose d; DriverQuit d];
      now rewrite <- app_assoc.
  - now exists [DriverClose d].
Qed.

End Session.

Section Closing.

Context {W : Type} {env : Environment W}.

Lemma emits_categories (pages : nat) (cats : list pystr)
      (loc : option WebDriver * list row) :
  emits not_close (for_ cats (parse_category pages) loc).
Proof. apply emits_for_. intros. apply emits_parse_category. Qed.

(** The wrapper either contains a raised exception or lets it out. *)
Lemma handle_raise_cases {A} (func : M W (option A)) st e st1 :
  func st = (Raise e, st1) ->
  (transient e = true
   /\ fst (handle_exceptions func st) = Return None)
  \/ (transient e = false
      /\ fst (handle_exceptions func st) = Raise e).
Proof.
  intros F. destruct (transient e) eqn:T.
  - left. now rewrite (handle_transient _ _ F T).
  - right. destruct (isinstance e Exception) eqn:X.
    + now rewrite (handle_unexpected _ _ F T X).
    + now rewrite (handle_uncaught _ _ F T X).
Qed.

(** C4, amended.  Of the calls [parse_products] makes on a live
    session: when it returns the list of records, its body ran to the
    end and the window was closed exactly once; when it returns [None],
    a fault escaped the loops and the window was not closed at all; when
    it raises, the window was closed at most once. *)
Theorem parse_products_close_count
        (d : WebDriver) (categories : list pystr) (pages : nat)
        (st : state W) :
  exists new,
    calls (snd (parse_products (Some d) categories pages st))
    = calls st ++ new
    /\ match fst (parse_products (Some d) categories pages st) with
       | Return (Some _) => closes new = 1
       | Return None => closes new = 0
       | Raise _ => closes new <= 1
       end.
Proof.
  unfold parse_products. rewrite handle_calls.
  destruct (emits_categories pages categories (Some d, []) st)
    as (n1 & E1 & F1).
  apply closes_none in F1.
  destruct (for_ categories (parse_category pages) (Some d, []) st)
    as [[[drv pm]|e] st1] eqn:L; simpl in E1.
  - assert (drv = Some d) by exact (categories_driver _ _ _ _ _ L).
    subst drv.
    destruct (close_driver_closes_once d st1) as (n2 & E2 & C2).
    destruct (close_driver (Some d) st1) as [[v|e] st2] eqn:C;
      simpl in E2.
    + assert (B : parse_products_body (Some d) categories pages st
                  = (Return (Some pm), st2)).
      { unfold parse_products_body, bind. rewrite L.
        rewrite logger_debug_noop, C. reflexivity. }
      rewrite (handle_return _ _ B), B. simpl.
      exists (n1 ++ n2). rewrite closes_app.
      split; [now rewrite E2, E1, app_assoc|lia].
    + assert (B : parse_products_body (Some d) categories pages st
                  = (Raise e, st2)).
      { unfold parse_products_body, bind. rewrite L.
        rewrite logger_debug_noop, C. reflexivity. }
      destruct (handle_raises_unexpected _ _ C) as [T _].
      destruct (handle_raise_cases _ _ B) as [[T' _]|[_ R]];
        [congruence|].
      rewrite R, B. simpl.
      exists (n1 ++ n2). rewrite closes_app.
      split; [now rewrite E2, E1, app_assoc|lia].
  - assert (B : parse_products_body (Some d) categories pages st
                = (Raise e, st1)).
    { unfold parse_products_body, bind. now rewrite L. }
    exists n1. rewrite B. simpl. split; [exact E1|].
    destruct (handle_raise_cases _ _ B) as [[_ R]|[_ R]];
      rewrite R; lia.
Qed.

End Closing.

(** C4 as stated fails: when a card has gone stale, [parse_products]
    returns [None] to its caller and neither [close] nor [quit] was ever
    called on the session. *)
Lemma parse_products_leaves_session_open :
  fst (@parse_products unit Mock.stale_card2 (Some 1) [py "Snacks"] 2
         Mock.st0) = Return None
  /\ closes (calls (snd (@parse_products unit Mock.stale_card2 (Some 1)
                           [py "Snacks"] 2 Mock.st0))) = 0
  /\ ~ In (DriverQuit 1)
          (calls (snd (@parse_products unit Mock.stale_card2 (Some 1)
                         [py "Snacks"] 2 Mock.st0))).
Proof.
  vm_compute. intuition discriminate.
Qed.

(* ================================================================== *)
(** ** A fault inside a card *)

Section Cards.

Context {W : Type} {env : Environment W}.

(** C3, amended.  When the first category opens, its first page shows
    the cards [c1], [c2] and further ones, card [c1] is extracted and
    the extraction of [c2] raises a stale-reference fault (or any other
    contained one), [parse_products] logs one error and returns [None]
    in the state the fault left: the record of [c1] is dropped with the
    local list, and no call is made for a later card, a later page, a
    later category or to close the session. *)
Theorem parse_products_card_fault_aborts
        (d : WebDriver) (cat : pystr) (cats : list pystr) (pages : nat)
        (c1 c2 : WebElement) (rest : list WebElement)
        (st st1 st2 st3 st4 : state W) (recs : list row) (e : exn) :
  enter_category (Some d) cat st = (Return tt, st1) ->
  until_all (WebDriverWait (Some d) 10) By_CLASS_NAME
            (py "product.ok-theme") st1
  = (Return (c1 :: c2 :: rest), st2) ->
  parse_card (Some d) c1 [] st2 = (Return recs, st3) ->
  parse_card (Some d) c2 recs st3 = (Raise e, st4) ->
  transient e = true ->
  parse_products (Some d) (cat :: cats) (S pages) st
  = (Return None, add_log st4 (error_record (contained_prefix e) e))
  /\ calls (add_log st4 (error_record (contained_prefix e) e))
     = calls st4.
Proof.
  intros H1 H2 H3 H4 T. split; [|reflexivity].
  unfold parse_products. apply handle_transient; [|exact T].
  assert (Cs : for_ (c1 :: c2 :: rest) (parse_card (Some d)) [] st2
               = (Raise e, st4)).
  { cbn [for_]. rewrite (bind_return _ _ _ H3). now apply bind_raise. }
  assert (Pg : parse_page (Some d, []) st1 = (Raise e, st4)).
  { unfold parse_page. rewrite (bind_return _ _ _ H2).
    rewrite (bind_return _ _ _ (logger_debug_noop _ st2)).
    now apply bind_raise. }
  assert (Ct : parse_category (S pages) cat (Some d, []) st
               = (Raise e, st4)).
  { unfold parse_category. rewrite (bind_return _ _ _ H1).
    cbn [seq for_]. now apply bind_raise. }
  unfold parse_products_body. apply bind_raise.
  cbn [for_]. now apply bind_raise.
Qed.

End Cards.

(** C3, witness: three cards of which the second has gone stale. *)
Lemma parse_products_card_fault_aborts_witness :
  fst (@parse_products unit Mock.stale_card2 (Some 1) [py "Snacks"] 2
         Mock.st0) = Return None.
Proof.
  edestruct (@parse_products_card_fault_aborts unit Mock.stale_card2 1
               (py "Snacks") [] 1 1 2 [3] Mock.st0) as [H _].
  - vm_compute. reflexivity.
  - vm_compute. reflexivity.
  - vm_compute. reflexivity.
  - vm_compute. reflexivity.
  - vm_compute. reflexivity.
  - exact (f_equal fst H).
Defined.

(** C3 as stated fails: with the second of three cards stale, the call
    returns [None], so the record of card 1 is not kept, and although
    calls were made on card 1 and card 2, none is ever made on card 3. *)
Lemma parse_products_not_isolated_per_card :
  fst (@parse_products unit Mock.stale_card2 (Some 1) [py "Snacks"] 2
         Mock.st0) = Return None
  /\ existsb (on_element 1)
       (calls (snd (@parse_products unit Mock.stale_card2 (Some 1)
                      [py "Snacks"] 2 Mock.st0))) = true
  /\ existsb (on_element 2)
       (calls (snd (@parse_products unit Mock.stale_card2 (Some 1)
                      [py "Snacks"] 2 Mock.st0))) = true
  /\ existsb (on_element 3)
       (calls (snd (@parse_products unit Mock.stale_card2 (Some 1)
                      [py "Snacks"] 2 Mock.st0))) = false.
Proof. vm_compute. repeat split. Qed.

(* ================================================================== *)
(** ** Address selection *)

Ltac bind_inv H :=
  let a := fresh "a" in
  let s := fresh "s" in
  apply bind_return_inv in H; destruct H as (a & s & _ & H).

Section Address.

Context {W : Type} {env : Environment W}.

(** When the body of [select_delivery_address] returns, it returns the
    driver it was given. *)
Lemma select_delivery_address_body_value
      (driver a : option WebDriver) (addr : pystr) st st' :
  select_delivery_address_body driver addr st = (Return a, st') ->
  a = driver.
Proof.
  unfold select_delivery_address_body. intros H.
  repeat bind_inv H.
  unfold ret in H. now injection H as <- _.
Qed.

End Address.


(** A fault of the consent step alone is contained inside [find_element]
    and [click_element]: the flow goes on and the driver is returned. *)
Example select_delivery_address_without_consent :
  fst (@select_delivery_address unit Mock.no_consent_button (Some 1)
         ADDRESS Mock.st0) = Return (Some 1)
  /\ map lr_level
         (log (snd (@select_delivery_address unit Mock.no_consent_button
                      (Some 1) ADDRESS Mock.st0))) = [ERROR; ERROR].
Proof. vm_compute. split; reflexivity. Qed.

(** A run on a co-operative site: two categories of two pages of three
    cards, one header row and twelve records in the file, one close. *)
Example main_healthy :
  fst (@main unit Mock.healthy [] [] Mock.st0) = Return tt
  /\ option_map (@length row)
       (products_csv (snd (@main unit Mock.healthy [] [] Mock.st0)))
     = Some 13
  /\ closes (calls (snd (@main unit Mock.healthy [] [] Mock.st0))) = 1.
Proof. vm_compute. repeat split. Qed.

(* ================================================================== *)
(** ** More on the wrapper *)

Section WrapperLayers.

Context {W : Type}.

(** X1.  Whatever a wrapped function raises is not an instance of a
    contained class, and it is what the body itself raised. *)
Theorem wrapped_raises_only_unexpected {A} (func : M W (option A))
        st e st2 :
  handle_exceptions func st = (Raise e, st2) ->
  transient e = false /\ exists st1, func st = (Raise e, st1).
Proof.
  intros H. destruct (handle_raises_unexpected _ _ H) as (T & st1 & F & _).
  split; [exact T|]. now exists st1.
Qed.

(** X2.  Two wrappers around one body: a returned value and a contained
    fault are handled as by one wrapper, but an unexpected [Exception]
    is logged by each wrapper it passes, so twice. *)
Theorem handle_exceptions_nested {A} (func : M W (option A)) st :
  match func st with
  | (Return a, st1) =>
      handle_exceptions (handle_exceptions func) st = (Return a, st1)
  | (Raise e, st1) =>
      (transient e = true ->
       handle_exceptions (handle_exceptions func) st
       = (Return None, add_log st1 (error_record (contained_prefix e) e)))
      /\ (transient e = false -> isinstance e Exception = true ->
          handle_exceptions (handle_exceptions func) st
          = (Raise e,
             add_log
               (add_log st1
                  (error_record "An unexpected error occurred: " e))
               (error_record "An unexpected error occurred: " e)))
  end.
Proof.
  destruct (func st) as [[a|e] st1] eqn:F.
  - apply handle_return. now apply handle_return.
  - split.
    + intros T. apply handle_return. now apply handle_transient.
    + intros T X. apply handle_unexpected; [|exact T|exact X].
      now apply handle_unexpected.
Qed.

End WrapperLayers.

(** X1, witness: an [IndexError] comes out of the wrapper. *)
Lemma wrapped_raises_only_unexpected_witness :
  transient (mkExn IndexError []) = false
  /\ exists st1, @raise unit (option Empty_set) (mkExn IndexError [])
                   Mock.st0 = (Raise (mkExn IndexError []), st1).
Proof.
  apply (@wrapped_raises_only_unexpected unit Empty_set
           (raise (mkExn IndexError [])) Mock.st0 (mkExn IndexError [])
           (add_log Mock.st0
              (error_record "An unexpected error occurred: "
                 (mkExn IndexError [])))).
  reflexivity.
Defined.

(** X2, witness: an [IndexError] under two wrappers leaves two records. *)
Lemma handle_exceptions_nested_witness :
  map lr_level
      (log (snd (@handle_exceptions unit Empty_set
                   (handle_exceptions (raise (mkExn IndexError [])))
                   Mock.st0))) = [ERROR; ERROR].
Proof.
  pose proof (@handle_exceptions_nested unit Empty_set
                (raise (mkExn IndexError [])) Mock.st0) as H.
  simpl in H. destruct H as [_ H].
  rewrite (H eq_refl eq_refl). reflexivity.
Defined.

(* ================================================================== *)
(** ** Single steps on the browser *)

Section Steps.

Context {W : Type} {env : Environment W}.

Lemma wait_step (d : WebDriver) (c : condition) (st : state W) :
  let m := bind (until (WebDriverWait (Some d) 10) c)
                (fun e => ret (Some e)) in
  calls (snd (handle_exceptions m st)) = calls st ++ [WaitUntil d 10 c]
  /\ forall e, fst (handle_exceptions m st) = Return (Some e) ->
               fst (respond (WaitUntil d 10 c) (world st)) = Return e.
Proof.
  intros m. rewrite handle_calls. unfold m, until, bind, deref, ret, invoke.
  simpl.
  destruct (respond (WaitUntil d 10 c) (world st)) as [[x|e'] w] eqn:R.
  - split; [reflexivity|]. intros e H.
    erewrite handle_return in H by (simpl; rewrite R; reflexivity).
    simpl in *. congruence.
  - split; [reflexivity|]. intros e H. exfalso.
    match type of H with
    | fst (handle_exceptions ?f st) = _ =>
        assert (B : f st
                    = (Raise e',
                       mkState w (calls st ++ [WaitUntil d 10 c])
                               (log st) (products_csv st)))
          by (simpl; rewrite R; reflexivity);
        destruct (handle_raise_cases f st B) as [[_ R1]|[_ R1]];
        rewrite R1 in H; discriminate H
    end.
Qed.

Lemma wait_without_driver (c : condition) (st : state W) :
  let m := bind (until (WebDriverWait None 10) c)
                (fun e => ret (Some e)) in
  calls (snd (handle_exceptions m st)) = calls st
  /\ fst (handle_exceptions m st) = Return None.
Proof. split; reflexivity. Qed.

(** X3.  On a live driver and a recognised strategy, [find_element]
    makes exactly one call into the browser, a wait of 10 on that
    driver, and returns an element only if that wait returned it; with
    an unrecognised strategy or without a driver it makes no call and
    returns [None]. *)
Theorem find_element_one_wait
        (driver : option WebDriver) (method loc : pystr) (st : state W) :
  match driver, recognized method with
  | Some d, true =>
      exists c,
        calls (snd (find_element driver method loc st))
        = calls st ++ [WaitUntil d 10 c]
        /\ forall e,
            fst (find_element driver method loc st) = Return (Some e) ->
            fst (respond (WaitUntil d 10 c) (world st)) = Return e
  | _, _ =>
      calls (snd (find_element driver method loc st)) = calls st
      /\ fst (find_element driver method loc st) = Return None
  end.
Proof.
  destruct (recognized method) eqn:R.
  - unfold find_element, find_element_body.
    unfold recognized, recognized_methods, existsb in R.
    destruct driver as [d|].
    + destruct (pystr_eqb method (py "xpath"));
        [eexists; apply wait_step|].
      destruct (pystr_eqb method (py "class_name"));
        [eexists; apply wait_step|].
      destruct (pystr_eqb method (py "css_selector"));
        [eexists; apply wait_step|].
      destruct (pystr_eqb method (py "id"));
        [eexists; apply wait_step|].
      destruct (pystr_eqb method (py "tag_name"));
        [eexists; apply wait_step|].
      destruct (pystr_eqb method (py "delivery"));
        [eexists; apply wait_step|].
      discriminate R.
    + destruct (pystr_eqb method (py "xpath"));
        [apply wait_without_driver|].
      destruct (pystr_eqb method (py "class_name"));
        [apply wait_without_driver|].
      destruct (pystr_eqb method (py "css_selector"));
        [apply wait_without_driver|].
      destruct (pystr_eqb method (py "id"));
        [apply wait_without_driver|].
      destruct (pystr_eqb method (py "tag_name"));
        [apply wait_without_driver|].
      destruct (pystr_eqb method (py "delivery"));
        [apply wait_without_driver|].
      discriminate R.
  - destruct (recognized_false _ R) as (H1 & H2 & H3 & H4 & H5 & H6).
    assert (G : calls (snd (find_element driver method loc st)) = calls st
                /\ fst (find_element driver method loc st) = Return None).
    { unfold find_element, find_element_body.
      rewrite H1, H2, H3, H4, H5, H6. split; reflexivity. }
    now destruct driver.
Qed.

(** X4.  [close_driver] calls [quit] only after [close] has returned:
    when [close] raises, the call is contained or raised again and [quit]
    is skipped; without a driver nothing is called and [None] comes
    back. *)
Theorem close_driver_quit_after_close
        (driver : option WebDriver) (st : state W) :
  match driver with
  | None =>
      calls (snd (close_driver driver st)) = calls st
      /\ fst (close_driver driver st) = Return None
  | Some d =>
      match respond (DriverClose d) (world st) with
      | (Return _, _) =>
          calls (snd (close_driver driver st))
          = calls st ++ [DriverClose d; DriverQuit d]
      | (Raise e, _) =>
          calls (snd (close_driver driver st))
          = calls st ++ [DriverClose d]
          /\ (fst (close_driver driver st) = Return None
              \/ fst (close_driver driver st) = Raise e)
      end
  end.
Proof.
  destruct driver as [d|]; [|split; reflexivity].
  unfold close_driver, NoneType. rewrite handle_calls.
  destruct (respond (DriverClose d) (world st)) as [[u|e] w] eqn:R.
  - unfold close_driver_body, deref, bind, ret, invoke. simpl. rewrite R.
    simpl.
    destruct (respond (DriverQuit d) w) as [[u'|e] w']; simpl;
      now rewrite <- app_assoc.
  - assert (B : close_driver_body (Some d) st
                = (Raise e, mkState w (calls st ++ [DriverClose d])
                                    (log st) (products_csv st))).
    { unfold close_driver_body, deref, bind, ret, invoke. simpl.
      now rewrite R. }
    rewrite B. split; [reflexivity|].
    destruct (handle_raise_cases _ _ B) as [[_ H]|[_ H]]; auto.
Qed.

(** X5.  [go_next_page] on a live driver emits no log record (its two
    messages are below the logger's level) and leaves the file alone; it
    looks the arrow up once and clicks the first arrow found, and
    nothing else. *)
Theorem go_next_page_footprint (d : WebDriver) (st : state W) :
  log (snd (go_next_page (Some d) st)) = log st
  /\ products_csv (snd (go_next_page (Some d) st)) = products_csv st
  /\ match respond (DriverFindElements d By_CLASS_NAME (py "right_arrow"))
                   (world st) with
     | (Return (a :: _), _) =>
         calls (snd (go_next_page (Some d) st))
         = calls st ++ [DriverFindElements d By_CLASS_NAME
                          (py "right_arrow"); ElemClick a]
     | _ =>
         calls (snd (go_next_page (Some d) st))
         = calls st ++ [DriverFindElements d By_CLASS_NAME
                          (py "right_arrow")]
     end.
Proof.
  unfold go_next_page, deref, bind, ret, invoke, finally_return,
    try_except, index. simpl.
  destruct (respond (DriverFindElements d By_CLASS_NAME (py "right_arrow"))
                    (world st)) as [[[|a l]|e] w]; simpl.
  - repeat split.
  - destruct (respond (ElemClick a) w) as [[u|e] w']; simpl.
    + repeat split. now rewrite <- app_assoc.
    + destruct (isinstance e ElementNotInteractableException); simpl;
        repeat split; now rewrite <- app_assoc.
  - repeat split.
Qed.

End Steps.

(* ================================================================== *)
(** ** What the log and the file go through *)

Section Invariants.

Context {W : Type} {env : Environment W}.
Variable I : state W -> Prop.
Hypothesis Hc : call_blind I.
Hypothesis Hl : log_blind I.

Lemma preserves_ret {A} (a : A) : preserves I (ret (W := W) a).
Proof. now intros st H. Qed.

Lemma preserves_raise {A} (e : exn) :
  preserves I (raise (W := W) (A := A) e).
Proof. now intros st H. Qed.

Lemma preserves_bind {A B} (m : M W A) (k : A -> M W B) :
  preserves I m -> (forall a, preserves I (k a)) -> preserves I (bind m k).
Proof.
  intros Hm Hk st H. specialize (Hm st H). unfold bind.
  destruct (m st) as [[a|e] st1]; simpl in *; [now apply Hk|exact Hm].
Qed.

Lemma preserves_invoke (c : call) : preserves I (invoke c).
Proof.
  intros st H. unfold invoke.
  destruct (respond c (world st)) as [r w]. simpl. now apply Hc.
Qed.

Lemma preserves_logger_log (l : level) (msg : pystr) (x : bool) :
  preserves I (logger_log (W := W) l msg x).
Proof.
  intros st H. unfold logger_log.
  destruct (levelno logger_level <=? levelno l) eqn:E; simpl; [|exact H].
  refine (@Hl st (mkLog l msg x) H _). simpl.
  intros ->. discriminate E.
Qed.

Lemma preserves_try_except {A} (body : M W A) (c : exc_class)
      (handler : exn -> M W A) :
  preserves I body -> (forall e, preserves I (handler e)) ->
  preserves I (try_except body c handler).
Proof.
  intros Hb Hh st H. specialize (Hb st H). unfold try_except.
  destruct (body st) as [[a|e] st1]; simpl in *; [exact Hb|].
  destruct (isinstance e c); [now apply Hh|exact Hb].
Qed.

Lemma preserves_finally_return {A B} (body : M W A) (v : B) :
  preserves I body -> preserves I (finally_return body v).
Proof. intros Hb st H. exact (Hb st H). Qed.

Lemma preserves_handle_exceptions {A} (func : M W (option A)) :
  preserves I func -> preserves I (handle_exceptions func).
Proof.
  intros Hf st H. specialize (Hf st H).
  destruct (func st) as [[a|e] st1] eqn:F; simpl in Hf.
  - now rewrite (handle_return _ _ F).
  - destruct (transient e) eqn:T.
    + rewrite (handle_transient _ _ F T). simpl.
      now apply (@Hl st1 _ Hf).
    + destruct (isinstance e Exception) eqn:X.
      * rewrite (handle_unexpected _ _ F T X). simpl.
        now apply (@Hl st1 _ Hf).
      * now rewrite (handle_uncaught _ _ F T X).
Qed.

Lemma preserves_for_ {A S} (body : A -> S -> M W S) :
  (forall x s, preserves I (body x s)) ->
  forall xs s, preserves I (for_ xs body s).
Proof.
  intros Hb xs. induction xs as [|x xs IH]; intros s; simpl.
  - apply preserves_ret.
  - apply preserves_bind; [apply Hb|exact IH].
Qed.

Lemma preserves_deref {A} (o : option A) (attr : string) :
  preserves I (deref (W := W) o attr).
Proof. destruct o; [apply preserves_ret|apply preserves_raise]. Qed.

Lemma preserves_index {A} (l : list A) (i : nat) :
  preserves I (index (W := W) l i).
Proof.
  unfold index. destruct (nth_error l i);
    [apply preserves_ret|apply preserves_raise].
Qed.

Lemma preserves_str_add (a : pystr) (b : option pystr) :
  preserves I (str_add (W := W) a b).
Proof. destruct b; [apply preserves_ret|apply preserves_raise]. Qed.

End Invariants.

Ltac preserves_step Hc Hl :=
  lazymatch goal with
  | |- preserves _ (match ?x with Some _ => _ | None => _ end) =>
      destruct x
  | |- preserves _ (if ?b then _ else _) => destruct b
  | |- preserves _ (let '(_, _) := ?p in _) => destruct p
  | |- preserves ?I (invoke ?c) => apply (@preserves_invoke _ _ I Hc c)
  | |- _ =>
      first
        [ apply (preserves_logger_log Hl)
        | apply preserves_deref | apply preserves_index
        | apply preserves_str_add
        | apply (preserves_handle_exceptions Hl)
        | apply preserves_finally_return
        | apply preserves_try_except; [|intros ?]
        | apply preserves_for_; intros ? ?
        | apply preserves_ret | apply preserves_raise
        | apply preserves_bind; [|intros ?] ]
  end.

Section Footprint.

Context {W : Type} {env : Environment W}.
Variable PATH USER_AGENT : pystr.
Variable I : state W -> Prop.
Hypothesis Hc : call_blind I.
Hypothesis Hl : log_blind I.

Lemma preserves_create_webdriver (ua : pystr) (headless proxy : bool) :
  preserves I (create_webdriver PATH ua headless proxy).
Proof.
  unfold create_webdriver, create_webdriver_body.
  repeat preserves_step Hc Hl.
Qed.

Lemma preserves_find_element (driver : option WebDriver)
      (method loc : pystr) :
  preserves I (find_element driver method loc).
Proof.
  unfold find_element, find_element_body, until.
  repeat preserves_step Hc Hl.
Qed.

Lemma preserves_click_element (driver : option WebDriver)
      (element : option WebElement) :
  preserves I (click_element driver element).
Proof.
  unfold click_element, click_element_body, move_to_element.
  repeat preserves_step Hc Hl.
Qed.

Lemma preserves_close_driver (driver : option WebDriver) :
  preserves I (close_driver driver).
Proof.
  unfold close_driver, close_driver_body. repeat preserves_step Hc Hl.
Qed.

Lemma preserves_go_next_page (driver : option WebDriver) :
  preserves I (go_next_page driver).
Proof.
  unfold go_next_page, logger_debug. repeat preserves_step Hc Hl.
Qed.

Lemma preserves_select_delivery_address (driver : option WebDriver)
      (addr : pystr) :
  preserves I (select_delivery_address driver addr).
Proof.
  unfold select_delivery_address. apply (preserves_handle_exceptions Hl).
  unfold select_delivery_address_body, driver_get, hover, implicitly_wait,
    send_keys, until, time_sleep, logger_debug.
  repeat first
         [ apply preserves_find_element
         | apply preserves_click_element
         | preserves_step Hc Hl ].
Qed.

Lemma preserves_parse_card (driver : option WebDriver) (prod : WebElement)
      (products_main : list row) :
  preserves I (parse_card driver prod products_main).
Proof.
  unfold parse_card, category_step, logger_info, logger_warning.
  repeat preserves_step Hc Hl.
Qed.

Lemma preserves_parse_page (loc : option WebDriver * list row) :
  preserves I (parse_page loc).
Proof.
  destruct loc as [driver products_main].
  unfold parse_page, until_all, logger_debug, time_sleep.
  repeat first
         [ apply preserves_go_next_page
         | apply preserves_parse_card
         | preserves_step Hc Hl ].
Qed.

Lemma preserves_parse_category (pages : nat) (cat : pystr)
      (loc : option WebDriver * list row) :
  preserves I (parse_category pages cat loc).
Proof.
  destruct loc as [driver products_main].
  unfold parse_category, enter_category, driver_get, implicitly_wait,
    logger_debug.
  repeat first
         [ apply preserves_find_element
         | apply preserves_click_element
         | apply preserves_parse_page
         | preserves_step Hc Hl ].
Qed.

Lemma preserves_parse_products (driver : option WebDriver)
      (categories : list pystr) (pages : nat) :
  preserves I (parse_products driver categories pages).
Proof.
  unfold parse_products. apply (preserves_handle_exceptions Hl).
  unfold parse_products_body, logger_debug.
  apply preserves_bind.
  - apply preserves_for_. intros. apply preserves_parse_category.
  - intros [drv pm].
    repeat first [ apply preserves_close_driver | preserves_step Hc Hl ].
Qed.

End Footprint.

Section Run.

Context {W : Type} {env : Environment W}.
Variable PATH USER_AGENT : pystr.

Lemma no_debug_call_blind : call_blind (W := W) no_debug.
Proof. now intros st w cs H. Qed.

Lemma no_debug_log_blind : log_blind (W := W) no_debug.
Proof.
  intros st r H L. unfold no_debug, add_log. simpl.
  apply Forall_app. split; [exact H|]. now constructor.
Qed.

Lemma csv_is_call_blind (x : option (list row)) :
  call_blind (W := W) (csv_is x).
Proof. now intros st w cs H. Qed.

Lemma csv_is_log_blind (x : option (list row)) :
  log_blind (W := W) (csv_is x).
Proof. now intros st r H L. Qed.

Lemma preserves_no_debug_save_to_csv (products : option (list row)) :
  preserves (W := W) no_debug (save_to_csv products).
Proof.
  intros st H. destruct products as [rows|].
  - rewrite save_to_csv_list. exact H.
  - rewrite save_to_csv_None. simpl.
    apply no_debug_log_blind; [exact H|discriminate].
Qed.

(** X6.  A run never emits a record below the logger's level: if the log
    holds no debug record before [main], it holds none after, whatever
    the browser does. *)
Theorem main_never_logs_debug (st : state W) :
  no_debug st -> no_debug (snd (main PATH USER_AGENT st)).
Proof.
  revert st. change (preserves no_debug (main PATH USER_AGENT)).
  unfold main.
  apply preserves_bind;
    [apply preserves_create_webdriver;
     [apply no_debug_call_blind|apply no_debug_log_blind]|intros b1].
  apply preserves_bind;
    [apply preserves_select_delivery_address;
     [apply no_debug_call_blind|apply no_debug_log_blind]|intros b2].
  apply preserves_bind;
    [apply preserves_parse_products;
     [apply no_debug_call_blind|apply no_debug_log_blind]|intros prods].
  apply preserves_bind; [apply preserves_no_debug_save_to_csv|intros _].
  apply preserves_ret.
Qed.

(** X7.  When [parse_products] raises, the run ends with that exception,
    which is not of a contained class; [save_to_csv] is not reached and
    [products.csv] is as it was before the run. *)
Theorem main_aborts_when_parsing_raises
        (st s1 s2 s3 : state W) (b1 b2 : option WebDriver) (e : exn) :
  create_webdriver PATH USER_AGENT true true st = (Return b1, s1) ->
  select_delivery_address b1 ADDRESS s1 = (Return b2, s2) ->
  parse_products b2 CATEGORIES 2 s2 = (Raise e, s3) ->
  main PATH USER_AGENT st = (Raise e, s3)
  /\ transient e = false
  /\ products_csv s3 = products_csv st.
Proof.
  intros H1 H2 H3. split; [|split].
  - unfold main, bind. now rewrite H1, H2, H3.
  - unfold parse_products in H3.
    now destruct (handle_raises_unexpected _ _ H3).
  - assert (Cb : call_blind (W := W) (csv_is (products_csv st)))
      by apply csv_is_call_blind.
    assert (Lb : log_blind (W := W) (csv_is (products_csv st)))
      by apply csv_is_log_blind.
    pose proof (@preserves_create_webdriver W env PATH
                  (csv_is (products_csv st)) Cb Lb
                  USER_AGENT true true st eq_refl) as P1.
    rewrite H1 in P1. simpl in P1.
    pose proof (@preserves_select_delivery_address W env
                  (csv_is (products_csv st)) Cb Lb
                  b1 ADDRESS s1 P1) as P2.
    rewrite H2 in P2. simpl in P2.
    pose proof (@preserves_parse_products W env
                  (csv_is (products_csv st)) Cb Lb
                  b2 CATEGORIES 2 s2 P2) as P3.
    rewrite H3 in P3. exact P3.
Qed.

End Run.

(** X6, witness: a run from the empty log. *)
Lemma main_never_logs_debug_witness :
  no_debug (snd (@main unit Mock.stale_card2 [] [] Mock.st0)).
Proof.
  apply (@main_never_logs_debug unit Mock.stale_card2 [] [] Mock.st0).
  constructor.
Defined.

(** X7, witness: a price block with a single span makes [prices[1]] an
    [IndexError], which no wrapper contains. *)
Lemma main_aborts_when_parsing_raises_witness :
  exists st3,
    @main unit Mock.one_price [] [] Mock.st0
    = (Raise (mkExn IndexError (py "list index out of range")), st3)
    /\ products_csv st3 = None.
Proof.
  edestruct (@main_aborts_when_parsing_raises unit Mock.one_price [] []
               Mock.st0) as (H & _ & C).
  - vm_compute. reflexivity.
  - vm_compute. reflexivity.
  - vm_compute. reflexivity.
  - eexists. split; [exact H|exact C].
Defined.

Section RunTrace.

Context {W : Type} {env : Environment W}.
Variable PATH USER_AGENT : pystr.

(** X8.  When no session could be created, the run makes no further
    call into the browser: address selection and parsing each fail on
    the missing driver and saving fails on the missing list, three
    error records are logged, the file holds the header row alone and
    the run ends normally. *)
Theorem main_without_session (st s1 : state W) :
  create_webdriver PATH USER_AGENT true true st = (Return None, s1) ->
  exists r1 r2 r3,
    main PATH USER_AGENT st
    = (Return tt,
       add_log (set_csv (add_log (add_log s1 r1) r2) [csv_header]) r3)
    /\ lr_level r1 = ERROR /\ lr_level r2 = ERROR /\ lr_level r3 = ERROR.
Proof.
  intros H. do 3 eexists. split.
  - unfold main, bind. rewrite H. reflexivity.
  - repeat split.
Qed.

Lemma emits_create_webdriver (ua : pystr) (headless proxy : bool) :
  emits not_close (create_webdriver PATH ua headless proxy).
Proof.
  unfold create_webdriver, create_webdriver_body. repeat emits_step.
Qed.

Lemma emits_select_delivery_address (driver : option WebDriver)
      (addr : pystr) :
  emits not_close (select_delivery_address driver addr).
Proof.
  unfold select_delivery_address. apply emits_handle_exceptions.
  unfold select_delivery_address_body, driver_get, hover, implicitly_wait,
    send_keys, until, time_sleep, logger_debug.
  repeat first
         [ apply emits_find_element
         | apply emits_click_element
         | emits_step ].
Qed.

Lemma close_driver_closes_le (driver : option WebDriver) (st : state W) :
  exists new,
    calls (snd (close_driver driver st)) = calls st ++ new
    /\ closes new <= 1.
Proof.
  destruct driver as [d|].
  - destruct (close_driver_closes_once d st) as (new & E & C).
    exists new. split; [exact E|lia].
  - exists []. split; [now rewrite app_nil_r|]. unfold closes. simpl. lia.
Qed.

Lemma parse_products_closes_le (driver : option WebDriver)
      (categories : list pystr) (pages : nat) (st : state W) :
  exists new,
    calls (snd (parse_products driver categories pages st))
    = calls st ++ new
    /\ closes new <= 1.
Proof.
  unfold parse_products. rewrite handle_calls.
  destruct (emits_categories pages categories (driver, []) st)
    as (n1 & E1 & F1).
  apply closes_none in F1.
  unfold parse_products_body, bind.
  destruct (for_ categories (parse_category pages) (driver, []) st)
    as [[[drv pm]|e] st1]; simpl in E1.
  - rewrite logger_debug_noop.
    destruct (close_driver_closes_le drv st1) as (n2 & E2 & C2).
    exists (n1 ++ n2). rewrite closes_app.
    split; [|lia].
    destruct (close_driver drv st1) as [[v|e] st2]; simpl in *;
      now rewrite E2, E1, app_assoc.
  - exists n1. split; [exact E1|lia].
Qed.

Lemma save_to_csv_calls (products : option (list row)) (st : state W) :
  calls (snd (save_to_csv products st)) = calls st.
Proof.
  destruct products as [rows|].
  - now rewrite save_to_csv_list.
  - now rewrite save_to_csv_None.
Qed.

(** X9.  Whatever the browser does, a run closes the window at most
    once. *)
Theorem main_closes_at_most_once (st : state W) :
  exists new,
    calls (snd (main PATH USER_AGENT st)) = calls st ++ new
    /\ closes new <= 1.
Proof.
  unfold main, bind.
  destruct (emits_create_webdriver USER_AGENT true true st)
    as (n1 & E1 & F1).
  apply closes_none in F1.
  destruct (create_webdriver PATH USER_AGENT true true st)
    as [[b1|e] s1]; simpl in E1.
  2: { exists n1. simpl. split; [exact E1|lia]. }
  destruct (emits_select_delivery_address b1 ADDRESS s1)
    as (n2 & E2 & F2).
  apply closes_none in F2.
  destruct (select_delivery_address b1 ADDRESS s1)
    as [[b2|e] s2]; simpl in E2.
  2: { exists (n1 ++ n2). rewrite closes_app. simpl.
       split; [now rewrite E2, E1, app_assoc|lia]. }
  destruct (parse_products_closes_le b2 CATEGORIES 2 s2)
    as (n3 & E3 & C3).
  destruct (parse_products b2 CATEGORIES 2 s2)
    as [[prods|e] s3]; simpl in E3.
  - pose proof (save_to_csv_calls prods s3) as E4.
    exists (n1 ++ n2 ++ n3). rewrite !closes_app.
    split; [|lia].
    destruct (save_to_csv prods s3) as [[v|e] s4]; simpl in *;
      now rewrite E4, E3, E2, E1, !app_assoc.
  - exists (n1 ++ n2 ++ n3). rewrite !closes_app. simpl.
    split; [now rewrite E3, E2, E1, !app_assoc|lia].
Qed.

End RunTrace.

(** X8, witness: the browser cannot be started. *)
Lemma main_without_session_witness :
  fst (@main unit Mock.no_browser [] [] Mock.st0) = Return tt
  /\ products_csv (snd (@main unit Mock.no_browser [] [] Mock.st0))
     = Some [csv_header]
  /\ length (calls (snd (@main unit Mock.no_browser [] [] Mock.st0))) = 1.
Proof.
  edestruct (@main_without_session unit Mock.no_browser [] [] Mock.st0)
    as (r1 & r2 & r3 & H & _).
  - vm_compute. reflexivity.
  - rewrite H. repeat split.
Defined.

(* ================================================================== *)
(** ** The records *)

Ltac bind_keep H E :=
  let a := fresh "a" in
  let s := fresh "s" in
  apply bind_return_inv in H; destruct H as (a & s & E & H).

Section Records.

Context {W : Type} {env : Environment W}.

Lemma search_inv (p : Re.regex) (s : pystr) :
  forall gs,
    Re.search p s = Some gs ->
    exists a b,
      s = a ++ b /\ Re.match_here p b = Some gs
      /\ forall a' b', s = a' ++ b' -> length a' < length a ->
                       Re.match_here p b' = None.
Proof.
  induction s as [|x s IH]; intros gs H.
  - simpl in H. destruct (Re.match_here p []) as [gs'|] eqn:Mt;
      [|discriminate].
    injection H as ->. exists [], []. repeat split; [exact Mt|].
    intros a' b' _ L. simpl in L. lia.
  - simpl in H. destruct (Re.match_here p (x :: s)) as [gs'|] eqn:Mt.
    + injection H as ->. exists [], (x :: s). repeat split; [exact Mt|].
      intros a' b' _ L. simpl in L. lia.
    + destruct (IH _ H) as (a & b & -> & Mb & Lm).
      exists (x :: a), b. repeat split; [exact Mb|].
      intros a' b' E L. destruct a' as [|y a'].
      * simpl in E. subst b'. exact Mt.
      * simpl in E. injection E as <- E. simpl in L.
        apply (Lm a' b' E). lia.
Qed.

Lemma search_none_inv (p : Re.regex) (s : pystr) :
  Re.search p s = None ->
  forall a b, s = a ++ b -> Re.match_here p b = None.
Proof.
  induction s as [|x s IH]; intros H a b E.
  - destruct a; [|discriminate]. destruct b; [|discriminate].
    simpl in H. now destruct (Re.match_here p []).
  - simpl in H. destruct (Re.match_here p (x :: s)) eqn:Mt;
      [discriminate|].
    destruct a as [|y a].
    + simpl in E. now subst b.
    + simpl in E. injection E as _ E. exact (IH H a b E).
Qed.

(** X10.  [re.search] with the category pattern, as embedded, finds
    exactly the leftmost match: it returns a capture [v] if and only if
    [v] is what the leftmost match of the pattern in the text captures,
    and it returns nothing if and only if the text has no match. *)
Theorem search_category_characterised (s : pystr) :
  (forall gs, Re.search category_pattern s = Some gs
              <-> exists v, gs = [v] /\ first_match s v)
  /\ (Re.search category_pattern s = None <-> no_match s).
Proof.
  split.
  - intros gs. split.
    + intros H. destruct (search_inv _ _ H) as (a & b & -> & Mb & Lm).
      destruct (match_category_sound _ Mb) as (v & post & -> & NE & NI & ->).
      exists v. split; [reflexivity|]. exists a. split.
      * now exists post.
      * intros pre' v' (post' & E & NE' & NI').
        destruct (Nat.le_gt_cases (length a) (length pre')) as [L|L];
          [exact L|exfalso].
        pose proof (match_category_complete post' NE' NI') as C.
        rewrite (Lm pre' _ E L) in C. discriminate C.
    + intros (v & -> & F). now apply search_first_match.
  - split.
    + intros H pre v (post & E & NE & NI).
      pose proof (@search_none_inv category_pattern s H pre _ E) as N.
      rewrite (match_category_complete post NE NI) in N. discriminate N.
    + apply search_no_match.
Qed.

Lemma category_step_inv (lst l : row) (js_code : option pystr)
      (st st' : state W) :
  category_step lst js_code st = (Return l, st') ->
  exists c, l = lst ++ [Some c] /\ c <> [] /\ ~ In dquote c.
Proof.
  unfold category_step, try_except, bind, ret, deref.
  destruct js_code as [s|]; [|discriminate].
  destruct (Re.search category_pattern s) as [gs|] eqn:S.
  - intros H. injection H as <- _.
    destruct (search_inv _ _ S) as (a & b & _ & Mb & _).
    destruct (match_category_sound _ Mb) as (v & post & _ & NE & NI & ->).
    now exists v.
  - intros H. vm_compute in H. injection H as <- _.
    eexists. split; [reflexivity|].
    split; [discriminate|]. vm_compute. intuition discriminate.
Qed.

(** X11.  On script content that is a string the category step never
    raises: it appends one field, which is never empty and never holds a
    double quote, and it logs nothing or one warning.  On content that is
    [None] it raises [TypeError], which its own handler does not
    catch. *)
Theorem category_step_total (lst : row) (js_code : option pystr)
        (st : state W) :
  match js_code with
  | Some s =>
      exists c,
        fst (category_step lst js_code st) = Return (lst ++ [Some c])
        /\ c <> [] /\ ~ In dquote c
        /\ (snd (category_step lst js_code st) = st
            \/ snd (category_step lst js_code st)
               = add_log st
                   (mkLog WARNING (py "category not found") false))
  | None =>
      exists e,
        category_step lst js_code st = (Raise e, st)
        /\ exn_class e = TypeError
  end.
Proof.
  destruct js_code as [s|].
  - destruct (category_step lst (Some s) st) as [[l|e] st'] eqn:C.
    + destruct (category_step_inv _ _ _ C) as (c & -> & NE & NI).
      exists c. repeat split; try assumption.
      revert C. unfold category_step, try_except, bind, ret, deref.
      destruct (Re.search category_pattern s); intros C.
      * injection C as _ <-. now left.
      * injection C as _ <-. now right.
    + exfalso. revert C.
      unfold category_step, try_except, bind, ret, deref.
      destruct (Re.search category_pattern s); discriminate.
  - eexists. split; reflexivity.
Qed.

Lemma str_add_inv (a x : pystr) (b : option pystr) (st st' : state W) :
  str_add a b st = (Return x, st') -> exists s, x = a ++ s.
Proof.
  destruct b as [s|]; [|discriminate].
  intros H. injection H as <- _. now exists s.
Qed.

Lemma parse_card_inv (driver : option WebDriver) (prod : WebElement)
      (pm pm' : list row) st st' :
  parse_card driver prod pm st = (Return pm', st') ->
  exists r, pm' = pm ++ [r] /\ well_formed_record r.
Proof.
  unfold parse_card. intros H.
  do 5 bind_inv H.
  let E := fresh "Eimg" in bind_keep H E.
  do 3 bind_inv H.
  let E := fresh "Ecat" in bind_keep H E.
  do 9 bind_inv H.
  unfold ret in H. injection H as <- _.
  apply str_add_inv in Eimg. destruct Eimg as (src & ->).
  apply category_step_inv in Ecat. destruct Ecat as (c & -> & NE & NI).
  eexists. split; [reflexivity|].
  do 6 eexists. split; [reflexivity|]. now split.
Qed.

Lemma search_some_first_match (s : pystr) (gs : list pystr) :
  Re.search category_pattern s = Some gs ->
  exists v, gs = [v] /\ first_match s v.
Proof.
  intros H. destruct (search_inv _ _ H) as (a & b & -> & Mb & Lm).
  destruct (match_category_sound _ Mb) as (v & post & -> & NE & NI & ->).
  exists v. split; [reflexivity|]. exists a. split.
  - now exists post.
  - intros pre' v' (post' & E & NE' & NI').
    destruct (Nat.le_gt_cases (length a) (length pre')) as [L|L];
      [exact L|exfalso].
    pose proof (match_category_complete post' NE' NI') as C.
    rewrite (Lm pre' _ E L) in C. discriminate C.
Qed.

Lemma category_step_eval (lst : row) (js cat : pystr) (st : state W) :
  first_match js cat \/ (no_match js /\ cat = py "no category") ->
  exists st1,
    category_step lst (Some js) st = (Return (lst ++ [Some cat]), st1).
Proof.
  intros [F|[N ->]]; eexists;
    unfold category_step, try_except, bind, ret.
  - rewrite (search_first_match F). reflexivity.
  - rewrite (search_no_match N). reflexivity.
Qed.

Lemma invoke_answer (c : call) (x : ret_type c) (st : state W) :
  (forall w, fst (respond c w) = Return x) ->
  exists st1, invoke c st = (Return x, st1).
Proof.
  intros H. unfold invoke. specialize (H (world st)).
  destruct (respond c (world st)) as [r w]. simpl in H. subst r.
  eexists. reflexivity.
Qed.

Lemma bind_any {A B} (m : M W A) (k : A -> M W B) (x : A)
      (R : outcome B) :
  (forall st, exists st1, m st = (Return x, st1)) ->
  (forall st1, fst (k x st1) = R) ->
  forall st, fst (bind m k st) = R.
Proof.
  intros Hm Hk st. destruct (Hm st) as (st1 & E).
  unfold bind. rewrite E. apply Hk.
Qed.

(** X12.  When [parse_card] returns, it has appended exactly one record
    to the list and kept the earlier ones, and the record has the six
    fields of the header.  The fields are, in the order of the header:
    the text of the card's link, its [href] (which may be [None]), the
    site root followed by the [data-src] of the image, the category read
    from the script block, the normalised text of the first price span
    and the normalised text of the second. *)
Theorem parse_card_appends_record
        (driver : option WebDriver) (prod : WebElement) (pm : list row)
        (st : state W) :
  (forall pm' st',
      parse_card driver prod pm st = (Return pm', st') ->
      exists r, pm' = pm ++ [r] /\ well_formed_record r /\ length r = 6)
  /\ forall (d : WebDriver) (a img el div_price p0 p1 : WebElement)
            (rest : list WebElement) (name src js cat full price : pystr)
            (href : option pystr),
      driver = Some d ->
      (forall w, fst (respond (ElemFindElement prod By_TAG_NAME (py "a")) w)
                 = Return a) ->
      (forall w, fst (respond (ElemText a) w) = Return name) ->
      (forall w, fst (respond (ElemGetAttribute a (py "href")) w)
                 = Return href) ->
      (forall w, fst (respond (ElemFindElement prod By_TAG_NAME (py "img"))
                              w) = Return img) ->
      (forall w, fst (respond (ElemGetAttribute img (py "data-src")) w)
                 = Return (Some src)) ->
      (forall w, fst (respond (ElemFindElement prod By_TAG_NAME
                                 (py "script")) w) = Return el) ->
      (forall w, fst (respond (DriverExecuteScript d
                                 (py "return arguments[0].innerHTML;") el)
                              w) = Return (Some js)) ->
      first_match js cat \/ (no_match js /\ cat = py "no category") ->
      (forall w, fst (respond (ElemFindElement prod By_CLASS_NAME
                                 (py "product-price")) w)
                 = Return div_price) ->
      (forall w, fst (respond (ElemFindElements div_price By_TAG_NAME
                                 (py "span")) w)
                 = Return (p0 :: p1 :: rest)) ->
      (forall w, fst (respond (ElemGetAttribute p0 (py "textContent")) w)
                 = Return (Some full)) ->
      (forall w, fst (respond (ElemGetAttribute p1 (py "textContent")) w)
                 = Return (Some price)) ->
      fst (parse_card driver prod pm st)
      = Return (pm ++ [[Some name; href; Some (URL_MAIN ++ src); Some cat;
                        Some (normalise_price full);
                        Some (normalise_price price)]]).
Proof.
  split.
  - intros pm' st' H. destruct (parse_card_inv _ _ _ _ H) as (r & E & Wf).
    exists r. repeat split; try assumption.
    destruct Wf as (n & h & s & c & f & p & -> & _). reflexivity.
  - intros d a img el div_price p0 p1 rest name src js cat full price href
           -> Ha Hname Hhref Himg Hsrc Hel Hjs Hcat Hdiv Hspans Hfull Hprice.
    revert st. unfold parse_card.
    repeat (eapply bind_any;
            [ intros s;
              first [ apply invoke_answer; eassumption
                    | apply category_step_eval; eassumption
                    | eexists; reflexivity ]
            | intros ?; cbv beta ]).
    reflexivity.
Qed.

(** A property of the list of records that each card keeps is kept by
    the loops. *)
Section ListInvariant.

Variable Q : list row -> Prop.
Hypothesis Qcard :
  forall driver prod pm pm' st st',
    Q pm -> parse_card driver prod pm st = (Return pm', st') -> Q pm'.

Lemma cards_keep (driver : option WebDriver) (cards : list WebElement) :
  forall pm pm' st st',
    Q pm ->
    for_ cards (parse_card driver) pm st = (Return pm', st') -> Q pm'.
Proof.
  induction cards as [|c cards IH]; simpl; intros pm pm' st st' HQ H.
  - unfold ret in H. now injection H as <- _.
  - bind_keep H E. exact (IH _ _ _ _ (@Qcard _ _ _ _ _ _ HQ E) H).
Qed.

Lemma page_keeps (drv drv' : option WebDriver) (pm pm' : list row)
      st st' :
  Q pm -> parse_page (drv, pm) st = (Return (drv', pm'), st') -> Q pm'.
Proof.
  unfold parse_page. intros HQ H.
  do 2 bind_inv H.
  let E := fresh "Ec" in bind_keep H E.
  do 2 bind_inv H.
  unfold ret in H. injection H as _ <- _.
  exact (@cards_keep _ _ _ _ _ _ HQ Ec).
Qed.

Lemma pages_keep (xs : list nat) :
  forall drv drv' pm pm' st st',
    Q pm ->
    for_ xs (fun _ => parse_page) (drv, pm) st
    = (Return (drv', pm'), st') -> Q pm'.
Proof.
  induction xs as [|x xs IH]; simpl; intros drv drv' pm pm' st st' HQ H.
  - unfold ret in H. now injection H as _ <- _.
  - apply bind_return_inv in H. destruct H as ([d1 p1] & s1 & G & H).
    exact (IH _ _ _ _ _ _ (@page_keeps _ _ _ _ _ _ HQ G) H).
Qed.

Lemma categories_keep (pages : nat) (cats : list pystr) :
  forall drv drv' pm pm' st st',
    Q pm ->
    for_ cats (parse_category pages) (drv, pm) st
    = (Return (drv', pm'), st') -> Q pm'.
Proof.
  induction cats as [|c cats IH]; simpl; intros drv drv' pm pm' st st' HQ H.
  - unfold ret in H. now injection H as _ <- _.
  - apply bind_return_inv in H. destruct H as ([d1 p1] & s1 & G & H).
    unfold parse_category in G. bind_inv G.
    exact (IH _ _ _ _ _ _ (@pages_keep _ _ _ _ _ _ _ HQ G) H).
Qed.

Lemma parse_products_keeps (driver : option WebDriver)
      (categories : list pystr) (pages : nat) (l : list row) st st' :
  Q [] ->
  parse_products driver categories pages st = (Return (Some l), st') ->
  Q l.
Proof.
  intros HQ H. unfold parse_products in H.
  destruct (parse_products_body driver categories pages st)
    as [[a|e] st1] eqn:B.
  - rewrite (handle_return _ _ B) in H. injection H as -> _.
    unfold parse_products_body in B.
    apply bind_return_inv in B. destruct B as ([d1 p1] & s1 & G & B).
    do 3 bind_inv B. unfold ret in B. injection B as <- _.
    exact (@categories_keep _ _ _ _ _ _ _ _ HQ G).
  - destruct (transient e) eqn:T.
    + rewrite (handle_transient _ _ B T) in H. discriminate H.
    + destruct (isinstance e Exception) eqn:X.
      * rewrite (handle_unexpected _ _ B T X) in H. discriminate H.
      * rewrite (handle_uncaught _ _ B T X) in H. discriminate H.
Qed.

End ListInvariant.

(** X13.  Every record of the list [parse_products] returns has the six
    fields of the header row, a category that is not empty, and only its
    product link possibly [None]. *)
Theorem parse_products_rows_well_formed
        (driver : option WebDriver) (categories : list pystr)
        (pages : nat) (l : list row) (st st' : state W) :
  parse_products driver categories pages st = (Return (Some l), st') ->
  Forall (fun r => well_formed_record r /\ length r = length csv_header) l.
Proof.
  intros H.
  refine (@parse_products_keeps
            (Forall (fun r => well_formed_record r
                              /\ length r = length csv_header))
            _ driver categories pages l st st' _ H).
  - intros drv prod pm pm' s s' HQ C.
    destruct (parse_card_inv _ _ _ _ C) as (r & -> & Wf).
    apply Forall_app. split; [exact HQ|]. constructor; [|constructor].
    split; [exact Wf|].
    destruct Wf as (n & h & sr & c & f & p & -> & _). reflexivity.
  - constructor.
Qed.

End Records.

(** X12, witness: the first card of the co-operative page. *)
Lemma parse_card_appends_record_witness :
  fst (@parse_card unit Mock.healthy (Some 1) 1 [] Mock.st0)
  = Return ([] ++ [[Some (py "Chips"); Some (py "/chips");
                    Some (URL_MAIN ++ py "/chips"); Some (py "Snacks");
                    Some (normalise_price (py " 1234,56 ₴ "));
                    Some (normalise_price (py " 1234,56 ₴ "))]]).
Proof.
  refine (proj2 (@parse_card_appends_record unit Mock.healthy (Some 1) 1
                   [] Mock.st0)
                1 10 10 10 10 101 102 [] (py "Chips") (py "/chips")
                (py "item = {category: " ++ [dquote] ++ py "Snacks"
                    ++ [dquote] ++ py "}")
                (py "Snacks") (py " 1234,56 ₴ ") (py " 1234,56 ₴ ")
                (Some (py "/chips")) eq_refl _ _ _ _ _ _ _ _ _ _ _ _);
    try (intros w; vm_compute; reflexivity).
  left.
  destruct (@search_some_first_match
              (py "item = {category: " ++ [dquote] ++ py "Snacks"
                  ++ [dquote] ++ py "}") [py "Snacks"]) as (v & E & F).
  - vm_compute. reflexivity.
  - injection E as <-. exact F.
Defined.

(** X13, witness: one category of one page on the co-operative site. *)
Lemma parse_products_rows_well_formed_witness :
  exists l,
    fst (@parse_products unit Mock.healthy (Some 1) [py "Snacks"] 1
           Mock.st0) = Return (Some l)
    /\ Forall (fun r => well_formed_record r
                        /\ length r = length csv_header) l.
Proof.
  destruct (@parse_products unit Mock.healthy (Some 1) [py "Snacks"] 1
              Mock.st0) as [[[l|]|e] s] eqn:E0;
    try (vm_compute in E0; discriminate E0).
  exists l. split; [reflexivity|].
  exact (@parse_products_rows_well_formed unit Mock.healthy (Some 1)
           [py "Snacks"] 1 l Mock.st0 s E0).
Defined.

Section Degenerate.

Context {W : Type} {env : Environment W}.

Lemma parse_products_some_inv (driver : option WebDriver)
      (categories : list pystr) (pages : nat) (l : list row)
      (st st' : state W) :
  parse_products driver categories pages st = (Return (Some l), st') ->
  exists drv s1,
    for_ categories (parse_category pages) (driver, []) st
    = (Return (drv, l), s1).
Proof.
  intros H. unfold parse_products in H.
  destruct (parse_products_body driver categories pages st)
    as [[a|e] st1] eqn:B.
  - rewrite (handle_return _ _ B) in H. injection H as -> _.
    unfold parse_products_body in B.
    apply bind_return_inv in B. destruct B as ([d1 p1] & s1 & G & B).
    do 3 bind_inv B. unfold ret in B. injection B as <- _.
    now exists d1, s1.
  - destruct (handle_raise_cases _ _ B) as [[_ R]|[_ R]];
      rewrite H in R; discriminate R.
Qed.

Lemma categories_without_pages (cats : list pystr) :
  forall drv drv' pm pm' (st st' : state W),
    for_ cats (parse_category 0) (drv, pm) st
    = (Return (drv', pm'), st') -> pm' = pm.
Proof.
  induction cats as [|c cats IH]; simpl; intros drv drv' pm pm' st st' H.
  - unfold ret in H. now injection H as _ <- _.
  - apply bind_return_inv in H. destruct H as ([d1 p1] & s1 & G & H).
    unfold parse_category in G. bind_inv G. simpl in G.
    unfold ret in G. injection G as _ <- _.
    exact (IH _ _ _ _ _ _ H).
Qed.

(** X14.  With no category to visit or a page count of zero,
    [parse_products] can only return the empty list. *)
Theorem parse_products_nothing_to_do
        (driver : option WebDriver) (categories : list pystr)
        (pages : nat) (l : list row) (st st' : state W) :
  categories = [] \/ pages = 0 ->
  parse_products driver categories pages st = (Return (Some l), st') ->
  l = [].
Proof.
  intros D H.
  destruct (parse_products_some_inv _ _ _ _ H) as (drv & s1 & G).
  destruct D as [-> | ->].
  - simpl in G. unfold ret in G. now injection G as _ <- _.
  - exact (categories_without_pages _ _ _ _ G).
Qed.


End Degenerate.

(** X14, witness: a page count of zero on the co-operative site. *)
Lemma parse_products_nothing_to_do_witness :
  fst (@parse_products unit Mock.healthy (Some 1) [py "Snacks"] 0
         Mock.st0) = Return (Some []).
Proof.
  destruct (@parse_products unit Mock.healthy (Some 1) [py "Snacks"] 0
              Mock.st0) as [[[l|]|e] s] eqn:E;
    try (vm_compute in E; discriminate E).
  simpl. do 2 f_equal.
  apply (@parse_products_nothing_to_do unit Mock.healthy (Some 1)
           [py "Snacks"] 0 l Mock.st0 s); [now right|exact E].
Defined.

(* ================================================================== *)
(** ** More on prices *)

Section MorePrices.

Lemma lstrip_blank (s : pystr) : blank s -> lstrip s = [].
Proof.
  induction 1 as [|c s Hc _ IH]; simpl; [reflexivity|].
  now rewrite Hc.
Qed.

Lemma lstrip_nil_blank (s : pystr) : lstrip s = [] -> blank s.
Proof.
  induction s as [|c s IH]; simpl; intros H; [constructor|].
  destruct (isspace c) eqn:E; [|discriminate].
  constructor; [exact E|now apply IH].
Qed.

Lemma lstrip_blank_app (pre s : pystr) :
  blank pre -> lstrip (pre ++ s) = lstrip s.
Proof.
  induction 1 as [|c pre Hc _ IH]; simpl; [reflexivity|].
  now rewrite Hc.
Qed.

Lemma lstrip_app (s t : pystr) :
  lstrip s <> [] -> lstrip (s ++ t) = lstrip s ++ t.
Proof.
  induction s as [|c s IH]; simpl; intros H; [contradiction|].
  destruct (isspace c); [now apply IH|reflexivity].
Qed.

Lemma blank_rev (s : pystr) : blank s -> blank (rev s).
Proof. unfold blank. apply Forall_rev. Qed.

Lemma blank_app (s t : pystr) : blank s -> blank t -> blank (s ++ t).
Proof. intros Hs Ht. apply Forall_app. now split. Qed.

Lemma rstrip_app_blank (s post : pystr) :
  blank post -> rstrip (s ++ post) = rstrip s.
Proof.
  intros B. unfold rstrip.
  now rewrite rev_app_distr, (lstrip_blank_app _ (blank_rev B)).
Qed.

Lemma strip_surrounding (pre s post : pystr) :
  blank pre -> blank post -> strip (pre ++ s ++ post) = strip s.
Proof.
  intros Bp Bq. unfold strip. rewrite (lstrip_blank_app _ Bp).
  destruct (lstrip s) as [|c r] eqn:L.
  - rewrite (lstrip_blank (blank_app (lstrip_nil_blank _ L) Bq)).
    reflexivity.
  - rewrite lstrip_app by (rewrite L; discriminate).
    rewrite L. now apply rstrip_app_blank.
Qed.

(** X16.  Whatever whitespace surrounds it, a price text made of a value
    and two more code points, with no whitespace at either end, is
    normalised to the value: the two code points are dropped whatever
    they are. *)
Theorem normalise_price_drops_suffix (pre v post : pystr) (a b : N) :
  blank pre -> blank post -> clean (v ++ [a; b]) ->
  normalise_price (pre ++ (v ++ [a; b]) ++ post) = v.
Proof.
  intros Bp Bq C. unfold normalise_price.
  rewrite (strip_surrounding _ Bp Bq), C. unfold drop_last.
  rewrite length_app. simpl.
  replace (length v + 2 - 2) with (length v + 0) by lia.
  now rewrite firstn_app_2, app_nil_r.
Qed.

(** X17.  A price text that is blank, or whose trimmed form has no more
    than two code points, is normalised to the empty string; in general
    the result is two code points shorter than the trimmed text. *)
Theorem normalise_price_short (s : pystr) :
  (blank s -> normalise_price s = [])
  /\ (length (strip s) <= 2 -> normalise_price s = [])
  /\ length (normalise_price s) = length (strip s) - 2.
Proof.
  assert (L : length (normalise_price s) = length (strip s) - 2)
    by apply drop_last_length.
  split; [|split; [|exact L]].
  - intros B. unfold normalise_price, strip.
    now rewrite (lstrip_blank B).
  - intros H. apply length_zero_iff_nil. lia.
Qed.

End MorePrices.

(** X16, witness: the price of the example between two spaces. *)
Lemma normalise_price_drops_suffix_witness :
  normalise_price (py " " ++ (py "1234,56" ++ [32%N; 8372%N]) ++ py " ")
  = py "1234,56".
Proof.
  apply normalise_price_drops_suffix.
  - vm_compute. repeat constructor.
  - vm_compute. repeat constructor.
  - vm_compute. reflexivity.
Defined.

(** X17, witness: a text of three spaces, and the bare sign. *)
Lemma normalise_price_short_witness :
  normalise_price (py "   ") = [] /\ normalise_price (py "₴") = [].
Proof.
  split.
  - apply (normalise_price_short (py "   ")). vm_compute.
    repeat constructor.
  - apply (normalise_price_short (py "₴")). vm_compute. lia.
Defined.

(* ================================================================== *)
(** ** Entering a category, and turning pages *)

Section Paging.

Context {W : Type} {env : Environment W}.

Lemma until_raises (d : WebDriver) (timeout : nat) (c : condition)
      (st : state W) (e : exn) (w : W) :
  respond (WaitUntil d timeout c) (world st) = (Raise e, w) ->
  until (WebDriverWait (Some d) timeout) c st
  = (Raise e,
     mkState w (calls st ++ [WaitUntil d timeout c]) (log st)
             (products_csv st)).
Proof.
  intros H. unfold until, WebDriverWait, deref, bind, ret, invoke. simpl.
  now rewrite H.
Qed.

(** X18.  When the entry of a category is not found, the fault of the
    lookup is contained and logged, clicking on the [None] that comes
    back is refused with an [AttributeError] that is contained and
    logged too, without a call into the browser, and [enter_category]
    goes on to its implicit wait and returns: the pages are then read
    from whatever the browser shows. *)
Theorem enter_category_contains_lookup_fault
        (d : WebDriver) (cat : pystr) (st : state W)
        (w1 w2 w3 : W) (e : exn) :
  let xpass_category := py "//div[contains(text(),'" ++ cat ++ py "')]" in
  let lookup :=
    WaitUntil d 10 (presence_of_element_located By_XPATH xpass_category) in
  respond (DriverGet d URL_MAIN) (world st) = (Return tt, w1) ->
  respond lookup w1 = (Raise e, w2) ->
  transient e = true ->
  respond (DriverImplicitlyWait d 15) w2 = (Return tt, w3) ->
  exists e2,
    exn_class e2 = AttributeError
    /\ enter_category (Some d) cat st
       = (Return tt,
          mkState w3
            (calls st ++ [DriverGet d URL_MAIN; lookup;
                          DriverImplicitlyWait d 15])
            (log st ++ [error_record (contained_prefix e) e;
                        error_record "Webdriver exception: " e2])
            (products_csv st)).
Proof.
  intros xp lookup H1 H2 T H4.
  eexists. split; [|unfold enter_category].
  2: { erewrite bind_return.
       2: { unfold driver_get, deref, bind, ret, invoke. simpl. rewrite H1.
            reflexivity. }
       erewrite bind_return.
       2: { unfold find_element. apply handle_transient; [|exact T].
            unfold find_element_body.
            replace (pystr_eqb (py "xpath") (py "xpath")) with true
              by (vm_compute; reflexivity).
            apply bind_raise. apply until_raises. exact H2. }
       erewrite bind_return.
       2: { unfold click_element. apply handle_transient; reflexivity. }
       erewrite bind_return by apply logger_debug_noop.
       unfold implicitly_wait, deref, bind, ret, invoke. simpl. rewrite H4.
       unfold add_log. simpl. rewrite <- !app_assoc. reflexivity. }
  reflexivity.
Qed.

Lemma arrow_lookups_app (a b : list call) :
  arrow_lookups (a ++ b) = arrow_lookups a + arrow_lookups b.
Proof. unfold arrow_lookups. now rewrite filter_app, length_app. Qed.

Lemma arrow_lookups_none (cs : list call) :
  Forall not_arrow_lookup cs -> arrow_lookups cs = 0.
Proof.
  unfold arrow_lookups. induction 1 as [|c cs Hc _ IH]; [reflexivity|].
  simpl. now rewrite Hc.
Qed.

Lemma emits_run {A} (P : call -> Prop) (m : M W A) st r st' :
  emits P m -> m st = (r, st') ->
  exists new, calls st' = calls st ++ new /\ Forall P new.
Proof.
  intros Hm E. destruct (Hm st) as (new & C & F).
  rewrite E in C. now exists new.
Qed.

Lemma quiet_run {A} (m : M W A) st r st' :
  emits not_arrow_lookup m -> m st = (r, st') ->
  exists new, calls st' = calls st ++ new /\ arrow_lookups new = 0.
Proof.
  intros Hm E. destruct (@emits_run _ _ _ _ _ _ Hm E) as (new & C & F).
  exists new. split; [exact C|now apply arrow_lookups_none].
Qed.

Lemma quiet_parse_card (driver : option WebDriver) (prod : WebElement)
      (products_main : list row) :
  emits not_arrow_lookup (parse_card driver prod products_main).
Proof.
  unfold parse_card, category_step, logger_info, logger_warning.
  repeat emits_step.
Qed.

Lemma quiet_enter_category (driver : option WebDriver) (cat : pystr) :
  emits not_arrow_lookup (enter_category driver cat).
Proof.
  unfold enter_category, driver_get, implicitly_wait, logger_debug,
    find_element, find_element_body, until, click_element,
    click_element_body, move_to_element.
  repeat emits_step.
Qed.

Lemma quiet_close_driver (driver : option WebDriver) :
  emits not_arrow_lookup (close_driver driver).
Proof. unfold close_driver, close_driver_body. repeat emits_step. Qed.

Lemma go_next_page_one_lookup (driver a : option WebDriver)
      (st st' : state W) :
  go_next_page driver st = (Return a, st') ->
  exists new, calls st' = calls st ++ new /\ arrow_lookups new = 1.
Proof.
  destruct driver as [d|]; [|discriminate].
  unfold go_next_page, deref, bind, ret, invoke, finally_return,
    try_except, index. simpl.
  destruct (respond (DriverFindElements d By_CLASS_NAME (py "right_arrow"))
                    (world st)) as [[[|x l]|e] w]; simpl;
    [| |discriminate].
  - intros H. injection H as _ <-. simpl. now eexists.
  - destruct (respond (ElemClick x) w) as [[u|e] w']; simpl.
    + intros H. injection H as _ <-. simpl.
      exists [DriverFindElements d By_CLASS_NAME (py "right_arrow");
              ElemClick x].
      split; [now rewrite <- app_assoc|reflexivity].
    + destruct (isinstance e ElementNotInteractableException); simpl;
        intros H; injection H as _ <-; simpl;
        exists [DriverFindElements d By_CLASS_NAME (py "right_arrow");
                ElemClick x];
        (split; [now rewrite <- app_assoc|reflexivity]).
Qed.

Lemma page_one_lookup (loc loc' : option WebDriver * list row)
      (st st' : state W) :
  parse_page loc st = (Return loc', st') ->
  exists new, calls st' = calls st ++ new /\ arrow_lookups new = 1.
Proof.
  destruct loc as [drv pm]. unfold parse_page. intros H.
  apply bind_return_inv in H. destruct H as (cards & s1 & E1 & H).
  apply bind_return_inv in H. destruct H as (u & s2 & E2 & H).
  apply bind_return_inv in H. destruct H as (pm1 & s3 & E3 & H).
  apply bind_return_inv in H. destruct H as (drv1 & s4 & E4 & H).
  apply bind_return_inv in H. destruct H as (u5 & s5 & E5 & H).
  unfold ret in H. injection H as _ <-.
  rewrite logger_debug_noop in E2. injection E2 as _ <-.
  assert (Q1 : emits not_arrow_lookup
                 (until_all (WebDriverWait drv 10) By_CLASS_NAME
                            (py "product.ok-theme")))
    by (unfold until_all; repeat emits_step).
  destruct (@quiet_run _ _ _ _ _ Q1 E1) as (n1 & C1 & A1).
  assert (Q3 : emits not_arrow_lookup (for_ cards (parse_card drv) pm))
    by (apply emits_for_; intros; apply quiet_parse_card).
  destruct (@quiet_run _ _ _ _ _ Q3 E3) as (n3 & C3 & A3).
  destruct (@go_next_page_one_lookup _ _ _ _ E4) as (n4 & C4 & A4).
  assert (Q5 : emits not_arrow_lookup (time_sleep (W := W) 5))
    by (unfold time_sleep; repeat emits_step).
  destruct (@quiet_run _ _ _ _ _ Q5 E5) as (n5 & C5 & A5).
  exists (n1 ++ n3 ++ n4 ++ n5). rewrite !arrow_lookups_app.
  split; [|lia]. now rewrite C5, C4, C3, C1, <- !app_assoc.
Qed.

Lemma pages_lookups (xs : list nat) :
  forall (loc loc' : option WebDriver * list row) (st st' : state W),
    for_ xs (fun _ => parse_page) loc st = (Return loc', st') ->
    exists new,
      calls st' = calls st ++ new /\ arrow_lookups new = length xs.
Proof.
  induction xs as [|x xs IH]; simpl; intros loc loc' st st' H.
  - unfold ret in H. injection H as _ <-. exists [].
    split; [now rewrite app_nil_r|reflexivity].
  - apply bind_return_inv in H. destruct H as (l1 & s1 & G & H).
    destruct (@page_one_lookup _ _ _ _ G) as (n1 & C1 & A1).
    destruct (IH _ _ _ _ H) as (n2 & C2 & A2).
    exists (n1 ++ n2). rewrite arrow_lookups_app.
    split; [now rewrite C2, C1, app_assoc|lia].
Qed.

Lemma categories_lookups (pages : nat) (cats : list pystr) :
  forall (loc loc' : option WebDriver * list row) (st st' : state W),
    for_ cats (parse_category pages) loc st = (Return loc', st') ->
    exists new,
      calls st' = calls st ++ new
      /\ arrow_lookups new = length cats * pages.
Proof.
  induction cats as [|c cats IH]; simpl; intros loc loc' st st' H.
  - unfold ret in H. injection H as _ <-. exists [].
    split; [now rewrite app_nil_r|reflexivity].
  - apply bind_return_inv in H. destruct H as (l1 & s1 & G & H).
    destruct loc as [drv pm]. unfold parse_category in G.
    apply bind_return_inv in G. destruct G as (u & s0 & E0 & G).
    destruct (@quiet_run _ _ _ _ _ (quiet_enter_category drv c) E0)
      as (n0 & C0 & A0).
    destruct (@pages_lookups _ _ _ _ _ G) as (n1 & C1 & A1).
    rewrite length_seq in A1.
    destruct (IH _ _ _ _ H) as (n2 & C2 & A2).
    exists (n0 ++ n1 ++ n2). rewrite !arrow_lookups_app.
    split; [now rewrite C2, C1, C0, <- !app_assoc|lia].
Qed.

(** X19.  When [parse_products] returns its list, it has looked for the
    next-page arrow exactly once for every page of every category:
    [pages] times the number of categories, however many cards the pages
    held and whether or not an arrow was there. *)
Theorem parse_products_paginates
        (driver : option WebDriver) (categories : list pystr)
        (pages : nat) (l : list row) (st st' : state W) :
  parse_products driver categories pages st = (Return (Some l), st') ->
  exists new,
    calls st' = calls st ++ new
    /\ arrow_lookups new = length categories * pages.
Proof.
  intros H. unfold parse_products in H.
  destruct (parse_products_body driver categories pages st)
    as [[a|e] st1] eqn:B.
  - rewrite (handle_return _ _ B) in H. injection H as -> <-.
    unfold parse_products_body in B.
    apply bind_return_inv in B. destruct B as ([d1 p1] & s1 & G & B).
    apply bind_return_inv in B. destruct B as (u1 & s2 & E1 & B).
    apply bind_return_inv in B. destruct B as (u2 & s3 & E2 & B).
    apply bind_return_inv in B. destruct B as (u3 & s4 & E3 & B).
    unfold ret in B. injection B as _ <-.
    rewrite logger_debug_noop in E1. injection E1 as _ <-.
    rewrite logger_debug_noop in E3. injection E3 as _ <-.
    destruct (@categories_lookups _ _ _ _ _ _ G) as (n1 & C1 & A1).
    destruct (@quiet_run _ _ _ _ _ (quiet_close_driver d1) E2) as (n2 & C2 & A2).
    exists (n1 ++ n2). rewrite arrow_lookups_app.
    split; [now rewrite C2, C1, app_assoc|lia].
  - destruct (handle_raise_cases _ _ B) as [[_ R]|[_ R]];
      rewrite H in R; discriminate R.
Qed.

End Paging.

(** X18, witness: the consent button is looked up by XPath too, so the
    environment without it has no category entry either. *)
Lemma enter_category_contains_lookup_fault_witness :
  fst (@enter_category unit Mock.no_consent_button (Some 1) (py "Snacks")
         Mock.st0) = Return tt
  /\ map lr_level
         (log (snd (@enter_category unit Mock.no_consent_button (Some 1)
                      (py "Snacks") Mock.st0))) = [ERROR; ERROR].
Proof.
  destruct (@enter_category_contains_lookup_fault unit
              Mock.no_consent_button 1 (py "Snacks") Mock.st0 tt tt tt
              Mock.timeout eq_refl eq_refl eq_refl eq_refl)
    as (e2 & _ & H).
  split.
  - exact (f_equal fst H).
  - exact (f_equal (fun x => map lr_level (log (snd x))) H).
Defined.

(** X19, witness: two categories of two pages. *)
Lemma parse_products_paginates_witness :
  arrow_lookups
    (calls (snd (@parse_products unit Mock.healthy (Some 1) CATEGORIES 2
                   Mock.st0))) = 4.
Proof.
  destruct (@parse_products unit Mock.healthy (Some 1) CATEGORIES 2
              Mock.st0) as [[[l|]|e] s] eqn:E0;
    try (vm_compute in E0; discriminate E0).
  destruct (@parse_products_paginates unit Mock.healthy (Some 1)
              CATEGORIES 2 l Mock.st0 s E0) as (new & C & A).
  simpl. rewrite C. exact A.
Defined.

(* ================================================================== *)
(** ** Typing the address, and starting the browser *)

Section Typing.

Context {W : Type} {env : Environment W}.

Lemma keys_sent_app (a b : list call) :
  keys_sent (a ++ b) = keys_sent a ++ keys_sent b.
Proof. unfold keys_sent. apply flat_map_app. Qed.

Lemma keys_sent_none (cs : list call) :
  Forall not_send_keys cs -> keys_sent cs = [].
Proof.
  induction 1 as [|c cs Hc _ IH]; [reflexivity|].
  simpl. rewrite IH. now destruct c.
Qed.

Lemma sends_ret {A} (a : A) : sends [] (ret (W := W) a).
Proof.
  intros st x st' H. unfold ret in H. injection H as _ <-.
  exists []. split; [now rewrite app_nil_r|reflexivity].
Qed.

Lemma sends_quiet_bind {A B} (K : list pystr) (m : M W A)
      (k : A -> M W B) :
  emits not_send_keys m -> (forall a, sends K (k a)) ->
  sends K (bind m k).
Proof.
  intros Hm Hk st b st' H.
  apply bind_return_inv in H. destruct H as (a & s1 & E & H).
  destruct (Hm st) as (n1 & C1 & F1). rewrite E in C1. simpl in C1.
  destruct (Hk a s1 b st' H) as (n2 & C2 & K2).
  exists (n1 ++ n2). rewrite keys_sent_app, (keys_sent_none F1).
  split; [now rewrite C2, C1, app_assoc|exact K2].
Qed.

Lemma sends_key_bind {B} (K : list pystr) (e : option WebElement)
      (keys : pystr) (k : unit -> M W B) :
  (forall a, sends K (k a)) ->
  sends (keys :: K) (bind (send_keys e keys) k).
Proof.
  intros Hk st b st' H.
  apply bind_return_inv in H. destruct H as (a & s1 & E & H).
  destruct (Hk a s1 b st' H) as (n2 & C2 & K2).
  destruct e as [x|]; [|discriminate E].
  unfold send_keys, deref, bind, ret, invoke in E. simpl in E.
  destruct (respond (ElemSendKeys x keys) (world st)) as [[u|ex] w];
    [|discriminate E].
  injection E as _ <-. simpl in C2.
  exists (ElemSendKeys x keys :: n2). simpl. rewrite K2.
  split; [now rewrite C2, <- app_assoc|reflexivity].
Qed.

Lemma silent_find_element (driver : option WebDriver)
      (method loc : pystr) :
  emits not_send_keys (find_element driver method loc).
Proof.
  unfold find_element, find_element_body, until. repeat emits_step.
Qed.

Lemma silent_click_element (driver : option WebDriver)
      (element : option WebElement) :
  emits not_send_keys (click_element driver element).
Proof.
  unfold click_element, click_element_body, move_to_element.
  repeat emits_step.
Qed.

Lemma sends_select_delivery_address_body (driver : option WebDriver)
      (addr : pystr) :
  sends [addr; Keys_ENTER; Keys_ENTER]
        (select_delivery_address_body driver addr).
Proof.
  unfold select_delivery_address_body.
  repeat first
         [ apply sends_key_bind; intros ?
         | apply sends_quiet_bind;
           [ first [ apply silent_find_element
                   | apply silent_click_element
                   | unfold driver_get, hover, implicitly_wait, until,
                       time_sleep, logger_debug;
                     repeat emits_step ]
           | intros ? ]
         | apply sends_ret ].
Qed.

(** X20.  When [select_delivery_address] returns the driver, it has
    typed the address once and then [ENTER] twice, in that order, and
    nothing else. *)
Theorem select_delivery_address_types_address
        (driver d' : option WebDriver) (addr : pystr) (st st' : state W) :
  d' <> None ->
  select_delivery_address driver addr st = (Return d', st') ->
  exists new,
    calls st' = calls st ++ new
    /\ keys_sent new = [addr; Keys_ENTER; Keys_ENTER].
Proof.
  intros N H. unfold select_delivery_address in H.
  destruct (select_delivery_address_body driver addr st)
    as [[a|e] st1] eqn:B.
  - rewrite (handle_return _ _ B) in H. injection H as -> <-.
    exact (sends_select_delivery_address_body _ _ _ B).
  - destruct (handle_raise_cases _ _ B) as [[_ R]|[_ R]];
      rewrite H in R; simpl in R.
    + injection R as ->. now contradiction N.
    + discriminate R.
Qed.

(** X21.  [create_webdriver] starts the browser with one call; the
    options carry the user agent, and the proxy extension exactly when
    [proxy] is set; the result is the driver when the call returns. *)
Theorem create_webdriver_options
        (PATH user_agent : pystr) (headless proxy : bool)
        (st : state W) :
  exists options,
    calls (snd (create_webdriver PATH user_agent headless proxy st))
    = calls st ++ [Chrome headless options]
    /\ In (py "--user-agent=" ++ user_agent) (opt_arguments options)
    /\ (In (py "--load-extension=" ++ PATH) (opt_arguments options)
        <-> proxy = true)
    /\ forall d w,
        respond (Chrome headless options) (world st) = (Return d, w) ->
        fst (create_webdriver PATH user_agent headless proxy st)
        = Return (Some d).
Proof.
  eexists. unfold create_webdriver. rewrite handle_calls.
  unfold create_webdriver_body, bind, ret, invoke.
  split; [|split; [|split]].
  - match goal with
    | |- context [respond ?c (world st)] =>
        destruct (respond c (world st)) as [[d|e] w]; reflexivity
    end.
  - unfold add_argument, add_experimental_option. simpl.
    destruct proxy; simpl; right; right; now left.
  - unfold add_argument, add_experimental_option. simpl.
    destruct proxy; simpl.
    + split; [reflexivity|]. intros _. right. right. right. now left.
    + split; [|discriminate].
      intros [H|[H|[H|[]]]]; vm_compute in H; discriminate H.
  - intros d w R. erewrite handle_return; [reflexivity|].
    cbv beta. rewrite R. reflexivity.
Qed.

(** X22.  [click_element] on a live driver: given an element, it makes
    exactly one call, the hover-and-click on that element, and returns
    [None] or raises an exception that is not of a contained class;
    given [None] for the element, it makes no call at all: the
    [AttributeError] is contained, logged once, and [None] returned. *)
Theorem click_element_one_call
        (d : WebDriver) (element : option WebElement) (st : state W) :
  match element with
  | Some el =>
      calls (snd (click_element (Some d) element st))
      = calls st ++ [ActionsMoveClick d el]
      /\ (fst (click_element (Some d) element st) = Return None
          \/ exists e, fst (click_element (Some d) element st) = Raise e
                       /\ transient e = false)
  | None =>
      exists e,
        exn_class e = AttributeError
        /\ click_element (Some d) element st
           = (Return None,
              add_log st (error_record "Webdriver exception: " e))
  end.
Proof.
  destruct element as [el|].
  - unfold click_element, NoneType. rewrite handle_calls.
    unfold click_element_body at 1.
    unfold move_to_element, deref, bind, ret, invoke. simpl.
    destruct (respond (ActionsMoveClick d el) (world st))
      as [[u|e] w] eqn:R.
    + split; [reflexivity|]. left.
      erewrite handle_return; [reflexivity|].
      unfold click_element_body, move_to_element, deref, bind, ret, invoke.
      simpl. rewrite R. reflexivity.
    + split; [reflexivity|].
      assert (B : click_element_body (Some d) (Some el) st
                  = (Raise e,
                     mkState w (calls st ++ [ActionsMoveClick d el])
                             (log st) (products_csv st))).
      { unfold click_element_body, move_to_element, deref, bind, ret,
          invoke. simpl. now rewrite R. }
      destruct (handle_raise_cases _ _ B) as [[_ H]|[T H]].
      * now left.
      * right. now exists e.
  - exists (mkExn AttributeError (py "move_to requires a WebElement")).
    split; reflexivity.
Qed.

End Typing.

(** X20, witness: the co-operative site. *)
Lemma select_delivery_address_types_address_witness :
  keys_sent
    (calls (snd (@select_delivery_address unit Mock.healthy (Some 1)
                   ADDRESS Mock.st0)))
  = [ADDRESS; Keys_ENTER; Keys_ENTER].
Proof.
  destruct (@select_delivery_address unit Mock.healthy (Some 1) ADDRESS
              Mock.st0) as [[[d|]|e] s] eqn:E0;
    try (vm_compute in E0; discriminate E0).
  destruct (@select_delivery_address_types_address unit Mock.healthy
              (Some 1) (Some d) ADDRESS Mock.st0 s
              ltac:(discriminate) E0) as (new & C & K).
  simpl. rewrite C. exact K.
Defined.

(* ================================================================== *)
(** ** Address selection, step by step *)

Section AddressSteps.

Context {W : Type} {env : Environment W}.

Lemma contained_find_element (driver : option WebDriver)
      (method loc : pystr) :
  emits contained_step (find_element driver method loc).
Proof.
  unfold find_element, find_element_body, until. repeat emits_step.
Qed.

Lemma contained_click_element (driver : option WebDriver)
      (element : option WebElement) :
  emits contained_step (click_element driver element).
Proof.
  unfold click_element, click_element_body, move_to_element.
  repeat emits_step.
Qed.

Section Stops.

Variable c : call.
Variable e : exn.
Hypothesis Hesc : escaping c = true.
Hypothesis Hresp : forall w, fst (respond c w) = Raise e.

Lemma stops_contained {A} (m : M W A) :
  emits contained_step m -> stops_at c e m.
Proof.
  intros Hm st. destruct (Hm st) as (new & C & F).
  exists new. split; [exact C|]. intros I. exfalso.
  rewrite Forall_forall in F. specialize (F c I).
  unfold contained_step in F. congruence.
Qed.

Lemma stops_silent {A} (m : M W A) :
  (forall st, calls (snd (m st)) = calls st) -> stops_at c e m.
Proof.
  intros H st. exists []. rewrite app_nil_r.
  split; [apply H|intros []].
Qed.

Lemma stops_invoke (c0 : call) : stops_at c e (invoke c0).
Proof.
  intros st. exists [c0]. unfold invoke.
  destruct (respond c0 (world st)) as [r w] eqn:R. simpl.
  split; [reflexivity|]. intros [E|[]]. subst c0.
  pose proof (Hresp (world st)) as H. rewrite R in H. exact H.
Qed.

Lemma stops_bind {A B} (m : M W A) (k : A -> M W B) :
  stops_at c e m -> (forall a, stops_at c e (k a)) ->
  stops_at c e (bind m k).
Proof.
  intros Hm Hk st. destruct (Hm st) as (n1 & C1 & S1).
  unfold bind. destruct (m st) as [[a|e'] s1]; simpl in *.
  - destruct (Hk a s1) as (n2 & C2 & S2).
    exists (n1 ++ n2). split; [now rewrite C2, C1, app_assoc|].
    intros I. apply in_app_or in I. destruct I as [I|I].
    + specialize (S1 I). discriminate S1.
    + exact (S2 I).
  - exists n1. split; [exact C1|].
    intros I. specialize (S1 I). injection S1 as ->. reflexivity.
Qed.

Lemma stops_select_delivery_address_body
      (driver : option WebDriver) (addr : pystr) :
  stops_at c e (select_delivery_address_body driver addr).
Proof.
  unfold select_delivery_address_body, driver_get, hover, implicitly_wait,
    send_keys, until, time_sleep, logger_debug.
  repeat first
         [ solve [ apply stops_contained;
                   first [ apply contained_find_element
                         | apply contained_click_element ] ]
         | match goal with
           | |- stops_at _ _ (invoke ?c0) => apply (stops_invoke c0)
           end
         | solve [ apply stops_silent; intros ?;
                   first [ reflexivity
                         | match goal with
                           | |- context [deref ?o _] =>
                               destruct o; reflexivity
                           end ] ]
         | apply stops_bind; [|intros ?] ].
Qed.

End Stops.

Lemma invoke_calls (c : call) (st : state W) r st' :
  invoke c st = (r, st') -> calls st' = calls st ++ [c].
Proof.
  unfold invoke. destruct (respond c (world st)) as [r0 w].
  intros H. injection H as _ <-. reflexivity.
Qed.

Lemma find_consent_calls (d : WebDriver) (loc : pystr) (st : state W)
      r st' :
  find_element (Some d) (py "xpath") loc st = (r, st') ->
  calls st' = calls st
              ++ [WaitUntil d 10 (presence_of_element_located By_XPATH loc)].
Proof.
  intros H.
  destruct (wait_step d (presence_of_element_located By_XPATH loc) st)
    as [C _].
  unfold find_element, find_element_body in H.
  replace (pystr_eqb (py "xpath") (py "xpath")) with true in H
    by (vm_compute; reflexivity).
  now rewrite H in C.
Qed.

Lemma find_address_calls (d : WebDriver) (loc : pystr) (st : state W)
      r st' :
  find_element (Some d) (py "css_selector") loc st = (r, st') ->
  calls st' = calls st
              ++ [WaitUntil d 10
                    (presence_of_element_located By_CSS_SELECTOR loc)].
Proof.
  intros H.
  destruct (wait_step d (presence_of_element_located By_CSS_SELECTOR loc)
                      st) as [C _].
  unfold find_element, find_element_body in H.
  replace (pystr_eqb (py "css_selector") (py "xpath")) with false in H
    by (vm_compute; reflexivity).
  replace (pystr_eqb (py "css_selector") (py "class_name")) with false in H
    by (vm_compute; reflexivity).
  replace (pystr_eqb (py "css_selector") (py "css_selector")) with true
    in H by (vm_compute; reflexivity).
  now rewrite H in C.
Qed.

Lemma click_element_calls (d : WebDriver) (accept : option WebElement)
      (st : state W) r st' :
  click_element (Some d) accept st = (r, st') ->
  calls st' = calls st ++ match accept with
                          | Some a => [ActionsMoveClick d a]
                          | None => []
                          end.
Proof.
  intros H.
  pose proof (handle_calls (click_element_body (Some d) accept) st) as C.
  unfold click_element, NoneType in H. rewrite H in C. simpl in C.
  rewrite C. destruct accept as [a|];
    unfold click_element_body, move_to_element, deref, bind, ret, invoke;
    simpl.
  - now destruct (respond (ActionsMoveClick d a) (world st)) as [[u|x] w].
  - now rewrite app_nil_r.
Qed.

Lemma send_keys_calls (address : option WebElement) (keys : pystr)
      (st : state W) u st' :
  send_keys address keys st = (Return u, st') ->
  exists a, address = Some a
            /\ calls st' = calls st ++ [ElemSendKeys a keys].
Proof.
  destruct address as [a|]; [|discriminate]. intros H.
  exists a. split; [reflexivity|].
  exact (@invoke_calls (ElemSendKeys a keys) st (Return u) st' H).
Qed.

Lemma select_delivery_address_body_trace
      (d : WebDriver) (addr : pystr) (st st' : state W)
      (d' : option WebDriver) :
  select_delivery_address_body (Some d) addr st = (Return d', st') ->
  exists accept delivery address save,
    calls st' = calls st
                ++ address_trace d addr accept delivery address save.
Proof.
  unfold select_delivery_address_body. intros H.
  apply bind_return_inv in H. destruct H as (u1 & s1 & E1 & H).
  apply bind_return_inv in H. destruct H as (accept & s2 & E2 & H).
  apply bind_return_inv in H. destruct H as (u3 & s3 & E3 & H).
  apply bind_return_inv in H. destruct H as (u4 & s4 & E4 & H).
  apply bind_return_inv in H. destruct H as (delivery & s5 & E5 & H).
  apply bind_return_inv in H. destruct H as (u6 & s6 & E6 & H).
  apply bind_return_inv in H. destruct H as (u7 & s7 & E7 & H).
  apply bind_return_inv in H. destruct H as (u8 & s8 & E8 & H).
  apply bind_return_inv in H. destruct H as (u9 & s9 & E9 & H).
  apply bind_return_inv in H. destruct H as (address & s10 & E10 & H).
  apply bind_return_inv in H. destruct H as (u11 & s11 & E11 & H).
  apply bind_return_inv in H. destruct H as (u12 & s12 & E12 & H).
  apply bind_return_inv in H. destruct H as (u13 & s13 & E13 & H).
  apply bind_return_inv in H. destruct H as (u14 & s14 & E14 & H).
  apply bind_return_inv in H. destruct H as (u15 & s15 & E15 & H).
  apply bind_return_inv in H. destruct H as (u16 & s16 & E16 & H).
  apply bind_return_inv in H. destruct H as (u17 & s17 & E17 & H).
  apply bind_return_inv in H. destruct H as (save & s18 & E18 & H).
  apply bind_return_inv in H. destruct H as (u19 & s19 & E19 & H).
  apply bind_return_inv in H. destruct H as (u20 & s20 & E20 & H).
  apply bind_return_inv in H. destruct H as (u21 & s21 & E21 & H).
  apply bind_return_inv in H. destruct H as (u22 & s22 & E22 & H).
  unfold ret in H. injection H as _ <-.
  rewrite logger_debug_noop in E4, E9, E13, E17, E21.
  injection E4 as _ <-. injection E9 as _ <-. injection E13 as _ <-.
  injection E17 as _ <-. injection E21 as _ <-.
  pose proof (@invoke_calls (DriverGet d URL_MAIN) _ _ _ E1) as C1.
  apply find_consent_calls in E2.
  apply click_element_calls in E3.
  pose proof (@invoke_calls
                (WaitUntil d 15
                   (element_to_be_clickable By_ID
                      (py "availableReceiptTimeslot"))) _ _ _ E5) as C5.
  pose proof (@invoke_calls (ActionsMove d delivery) _ _ _ E6) as C6.
  pose proof (@invoke_calls (TimeSleep 10) _ _ _ E7) as C7.
  pose proof (@invoke_calls (ElemClick delivery) _ _ _ E8) as C8.
  apply find_address_calls in E10.
  pose proof (@invoke_calls (DriverImplicitlyWait d 15) _ _ _ E11) as C11.
  apply send_keys_calls in E12. destruct E12 as (a & -> & C12).
  pose proof (@invoke_calls (DriverImplicitlyWait d 15) _ _ _ E14) as C14.
  apply send_keys_calls in E15. destruct E15 as (a15 & Ea & C15).
  injection Ea as <-.
  apply send_keys_calls in E16. destruct E16 as (a16 & Ea & C16).
  injection Ea as <-.
  pose proof (@invoke_calls
                (WaitUntil d 15
                   (element_to_be_clickable By_ID
                      (py "addressSelectionButton"))) _ _ _ E18) as C18.
  pose proof (@invoke_calls (ActionsMove d save) _ _ _ E19) as C19.
  pose proof (@invoke_calls (ElemClick save) _ _ _ E20) as C20.
  pose proof (@invoke_calls (TimeSleep 10) _ _ _ E22) as C22.
  exists accept, delivery, a, save.
  rewrite C22, C20, C19, C18, C16, C15, C14, C12, C11, E10, C8, C7, C6, C5,
    E3, E2, C1.
  unfold address_trace. rewrite <- !app_assoc. reflexivity.
Qed.

End AddressSteps.

Section AddressOutcomes.

Context {W : Type} {env : Environment W}.

Lemma until_calls (d : WebDriver) (timeout : nat) (c : condition)
      (st : state W) :
  calls (snd (until (WebDriverWait (Some d) timeout) c st))
  = calls st ++ [WaitUntil d timeout c].
Proof.
  unfold until, WebDriverWait, deref, bind, ret, invoke. simpl.
  now destruct (respond (WaitUntil d timeout c) (world st)) as [[x|e] w].
Qed.

Lemma bind_calls_grow {A B} (P : call -> Prop) (m : M W A)
      (k : A -> M W B) (st : state W) :
  (forall a, emits P (k a)) ->
  exists more, calls (snd (bind m k st)) = calls (snd (m st)) ++ more.
Proof.
  intros Hk. unfold bind. destruct (m st) as [[a|e] s1]; simpl.
  - destruct (Hk a s1) as (n & C & _). now exists n.
  - exists []. now rewrite app_nil_r.
Qed.

(** A fault of the consent step is contained there: unless the call
    raises, the wait for the time-slot control is made. *)
Lemma slot_wait_reached (d : WebDriver) (addr : pystr) (st : state W)
      (w1 : W) :
  respond (DriverGet d URL_MAIN) (world st) = (Return tt, w1) ->
  (forall e, fst (select_delivery_address (Some d) addr st) <> Raise e) ->
  exists pre post,
    calls (snd (select_delivery_address_body (Some d) addr st))
    = calls st
      ++ pre
      ++ [WaitUntil d 15
            (element_to_be_clickable By_ID
               (py "availableReceiptTimeslot"))]
      ++ post.
Proof.
  intros H1 Hnr.
  assert (E1 : driver_get (Some d) URL_MAIN st
               = (Return tt,
                  mkState w1 (calls st ++ [DriverGet d URL_MAIN]) (log st)
                          (products_csv st))).
  { unfold driver_get, deref, bind, ret, invoke. simpl. now rewrite H1. }
  assert (Out : forall e st1,
             select_delivery_address_body (Some d) addr st = (Raise e, st1)
             -> transient e = false -> False).
  { intros e st1 B T.
    destruct (handle_raise_cases _ _ B) as [[T' _]|[_ R]];
      [congruence|exact (Hnr e R)]. }
  destruct (find_element (Some d) (py "xpath")
                         (py "//button[contains(text(),'Принять')]")
                         (mkState w1 (calls st ++ [DriverGet d URL_MAIN])
                                  (log st) (products_csv st)))
    as [[accept|e] s2] eqn:E2.
  2: { exfalso. unfold find_element in E2.
       destruct (handle_raises_unexpected _ _ E2) as (T & _).
       apply (Out e s2); [|exact T].
       unfold select_delivery_address_body.
       rewrite (bind_return _ _ _ E1). now apply bind_raise. }
  destruct (click_element (Some d) accept s2) as [[u|e] s3] eqn:E3.
  2: { exfalso. unfold click_element in E3.
       destruct (handle_raises_unexpected _ _ E3) as (T & _).
       apply (Out e s3); [|exact T].
       unfold select_delivery_address_body.
       rewrite (bind_return _ _ _ E1), (bind_return _ _ _ E2).
       now apply bind_raise. }
  unfold select_delivery_address_body.
  rewrite (bind_return _ _ _ E1), (bind_return _ _ _ E2),
    (bind_return _ _ _ E3), (bind_return _ _ _ (logger_debug_noop _ s3)).
  match goal with
  | |- context [bind (until ?w ?c) ?K s3] =>
      destruct (@bind_calls_grow _ _ not_close (until w c) K s3)
        as (more & Cm)
  end.
  { intros a.
    unfold hover, implicitly_wait, send_keys, until, time_sleep,
      logger_debug.
    repeat first
           [ apply emits_find_element
           | apply emits_click_element
           | emits_step ]. }
  rewrite Cm, until_calls.
  apply find_consent_calls in E2. apply click_element_calls in E3.
  rewrite E3, E2. simpl.
  exists ([DriverGet d URL_MAIN;
           WaitUntil d 10
             (presence_of_element_located By_XPATH
                (py "//button[contains(text(),'Принять')]"))]
          ++ match accept with
             | Some a => [ActionsMoveClick d a]
             | None => []
             end), more.
  now rewrite <- !app_assoc.
Qed.


End AddressOutcomes.

